(** * AWS-BACKUP: the incremental upload engine of [AWS-BACKUP.py]

    A shallow embedding of [src/AWS-BACKUP/Script/AWS-BACKUP.py]:
    the scanner ([gather_candidate_files]), the per-file decision loop of
    [backup_run], the hash ledger ([load_hash_db], [save_hash_db_atomic]),
    the run report and the exit code of the [__main__] block.

    The file system, the remote object store, the clock and the signal
    flag are what the script reads from its surroundings; they appear
    here as two records of oracles, [FS] and [Env], that the embedded
    functions consult exactly where the script calls [os], [boto3],
    [time] or reads [_interrupted].  Python floats are idealised as
    rationals ([Q]). *)

From Stdlib Require Import ZArith QArith Ascii String.
From stdpp Require Import base gmap sets list strings sorting.

Local Open Scope string_scope.
Local Open Scope list_scope.

(** ** Strings, as the script uses them *)

Module Str.

Definition lower_ascii (c : ascii) : ascii :=
  let n := nat_of_ascii c in
  if (65 <=? n)%nat && (n <=? 90)%nat then ascii_of_nat (n + 32) else c.

(** [str.lower()], on the ASCII range. *)
Fixpoint lower (s : string) : string :=
  match s with
  | EmptyString => EmptyString
  | String c t => String (lower_ascii c) (lower t)
  end.

(** [needle in hay]. *)
Fixpoint contains (needle hay : string) : bool :=
  if String.prefix needle hay then true
  else match hay with
       | EmptyString => false
       | String _ t => contains needle t
       end.

(** [s.replace(a, b)] for one-character [a] and [b]. *)
Fixpoint replace_char (a b : ascii) (s : string) : string :=
  match s with
  | EmptyString => EmptyString
  | String c t =>
      String (if Ascii.eqb c a then b else c) (replace_char a b t)
  end.

(** [s.split(sep)] for a one-character separator: never empty. *)
Fixpoint split_on (sep : ascii) (s : string) : list string :=
  match s with
  | EmptyString => [EmptyString]
  | String c t =>
      if Ascii.eqb c sep then EmptyString :: split_on sep t
      else match split_on sep t with
           | [] => [String c EmptyString]
           | w :: ws => String c w :: ws
           end
  end.

(** [sep.join(parts)]. *)
Fixpoint join_with (sep : string) (parts : list string) : string :=
  match parts with
  | [] => EmptyString
  | [p] => p
  | p :: ps => p +:+ sep +:+ join_with sep ps
  end.

(** ["*" * n]. *)
Fixpoint stars (n : nat) : string :=
  match n with
  | O => EmptyString
  | S k => String "*" (stars k)
  end.

(** [s[:n]] and [s[-n:]]; Python reads [s[-0:]] as the whole string. *)
Definition first_chars (n : nat) (s : string) : string :=
  String.substring 0 n s.

Definition last_chars (n : nat) (s : string) : string :=
  match n with
  | O => s
  | _ => String.substring (String.length s - n) n s
  end.

End Str.

(** ** Masking helpers (lines 27-59) *)

Definition mask_partial (val : string) (keep_start keep_end : nat) : string :=
  if decide (val = "") then "<REDACTED>"
  else if (String.length val <=? keep_start + keep_end)%nat
       then Str.stars (String.length val)
       else Str.first_chars keep_start val +:+ "..." +:+
            Str.last_chars keep_end val.

Definition mask_bucket (bucket : string) : string :=
  if decide (bucket = "") then "<REDACTED_BUCKET>"
  else mask_partial bucket 2 2.

Definition mask_s3_key (key : string) : string :=
  if decide (key = "") then "<REDACTED_S3_KEY>"
  else
    let parts := Str.split_on "/" key in
    if (length parts <=? 2)%nat
    then ".../" +:+ mask_partial (List.last parts "") 3 4
    else Str.join_with "/" (removelast parts) +:+ "/" +:+
         mask_partial (List.last parts "") 3 4.

(** ** Configuration (lines 91-122, 252-265) *)

Record Config := {
  S3_BUCKET : string;
  KMS_KEY_ARN : string;
  (** [SOURCE_DRIVES]: root -> label, in the dict's insertion order. *)
  SOURCE_DRIVES : list (string * string);
}.

Definition ALLOWED_FOLDER_NAMES : list string :=
  ["Pictures"; "Videos"; "Desktop"; "Downloads"].

Definition EXPLICIT_ABSOLUTE_PATHS : list string := [].

(** The script writes these as raw strings, so each one starts with two
    backslashes. *)
Definition EXCLUDE_PATH_PARTS : list string :=
  [ "\\Windows"; "\\Program Files"; "\\Program Files (x86)";
    "\\System Volume Information"; "\\$Recycle.Bin"; "\\hiberfil.sys";
    "\\pagefile.sys"; "\\SwapFile.sys"; "\\Recovery"; "\\PerfLogs" ].

(** [PRICE_PER_GB_DEEP_ARCHIVE = 0.00099]. *)
Definition PRICE_PER_GB_DEEP_ARCHIVE : Q := 99 # 100000.

(** ** The file system the script looks at *)

(** What [os.walk] meets below a directory: the entries of each
    directory in the order [os.scandir] enumerates them. *)
#[warnings="-register-all"]
Inductive entry : Type :=
  | File (name : string)
  | Dir (name : string) (children : list entry).

Record FS := {
  fs_exists : string -> bool;                   (* os.path.exists *)
  fs_listdir : string -> option (list string);  (* os.listdir, None: raises *)
  fs_tree : string -> list entry;               (* os.walk below a top path *)
  fs_getsize : string -> option Z;              (* os.path.getsize, None: raises *)
  fs_sha256 : string -> string + string;        (* compute_sha256: inl error, inr digest *)
  fs_abspath : string -> string;
  fs_normcase : string -> string;
  fs_normpath : string -> string;
  fs_join : string -> string -> string;
  fs_relpath : string -> string -> option string; (* None: raises *)
  fs_basename : string -> string;
  (** [mask_path_for_output] (lines 62-85): rendering only; it depends
      on [os.path.expanduser] and on a regular expression. *)
  mask_path_for_output : string -> string;
}.

(** ** Two Python idioms *)

(** [list(dict.fromkeys(l))]: the first occurrence of each element, in
    the order of [l]. *)
Fixpoint fromkeys_from {A} `{EqDecision A} (seen l : list A) : list A :=
  match l with
  | [] => []
  | x :: t =>
      if decide (x ∈ seen) then fromkeys_from seen t
      else x :: fromkeys_from (x :: seen) t
  end.

Definition dict_fromkeys {A} `{EqDecision A} (l : list A) : list A :=
  fromkeys_from [] l.

Definition str_le (a b : string) : Prop := String.leb a b = true.

#[global] Instance str_le_dec : RelDecision str_le :=
  fun a b => decide (String.leb a b = true).

(** [sorted(set(l))]. *)
Definition sorted_set (l : list string) : list string :=
  merge_sort str_le (remove_dups l).

(** ** Path helpers (lines 189-229) *)

Section Paths.
Context (fs : FS).

Definition path_is_excluded (full_path : string)
    (exclude_parts : list string) : bool :=
  let p := fs_normcase fs (fs_abspath fs full_path) in
  existsb (fun part => Str.contains (Str.lower part) (Str.lower p))
          exclude_parts.

Definition build_allowed_paths_for_source (source_root : string)
    (allowed_folder_names explicit_paths : list string) : list string :=
  let explicit :=
    fs_abspath fs <$>
      filter (fun p => String.prefix (fs_normcase fs source_root)
                         (fs_normcase fs (fs_abspath fs p)) = true)
             explicit_paths in
  let users_path := fs_join fs source_root "Users" in
  let per_user :=
    if fs_exists fs users_path then
      match fs_listdir fs users_path with
      | Some usernames =>
          List.flat_map (fun username =>
            let user_base := fs_join fs users_path username in
            filter (fun c => fs_exists fs c = true)
                   (fs_join fs user_base <$> allowed_folder_names))
            usernames
      | None => []
      end
    else [] in
  let top_level :=
    filter (fun c => fs_exists fs c = true)
           (fs_join fs source_root <$> allowed_folder_names) in
  let allowed := explicit ++ per_user ++ top_level in
  let normalized := (fun p => fs_normpath fs (fs_abspath fs p)) <$> allowed in
  sorted_set normalized.

(** One step of the [os.walk] loop at directory [root]: the files of
    [root] that pass the exclusion test, as [file_path]. *)
Definition files_here (root : string) (children : list entry)
    : list string :=
  List.flat_map (fun e =>
    match e with
    | File fname =>
        let file_path := fs_join fs root fname in
        if path_is_excluded file_path EXCLUDE_PATH_PARTS then []
        else [file_path]
    | Dir _ _ => []
    end) children.

(** A subdirectory [d] of [parent]: pruned from [dirs] when excluded,
    walked otherwise (its files first, then its subdirectories). *)
Fixpoint walk_entry (parent : string) (e : entry) : list string :=
  match e with
  | File _ => []
  | Dir d sub =>
      let root := fs_join fs parent d in
      if path_is_excluded root EXCLUDE_PATH_PARTS then []
      else files_here root sub ++ List.flat_map (walk_entry root) sub
  end.

Definition walk (top : string) : list string :=
  let children := fs_tree fs top in
  files_here top children ++ List.flat_map (walk_entry top) children.

(** ** Scanner (lines 268-291) *)

Definition candidates_of_source (source drive_name : string)
    : list (string * string) :=
  if fs_exists fs source then
    let allowed_roots :=
      build_allowed_paths_for_source source ALLOWED_FOLDER_NAMES
        EXPLICIT_ABSOLUTE_PATHS in
    List.flat_map (fun root_allowed =>
      (fun file_path =>
         (fs_normcase fs (fs_abspath fs file_path), drive_name))
        <$> walk root_allowed) allowed_roots
  else [].

Definition gather_candidate_files (cfg : Config)
    : list (string * string) * gmap string bool :=
  ( List.flat_map (fun sd => candidates_of_source sd.1 sd.2)
                  (SOURCE_DRIVES cfg),
    foldl (fun dp sd => <[sd.2 := fs_exists fs sd.1]> dp) ∅
          (SOURCE_DRIVES cfg) ).

End Paths.

(** ** What the run meets outside the file system *)

Record Env := {
  (** [_interrupted] as read at the top of iteration [idx] (1-based),
      when the manifest is closed and when the report is built. *)
  env_interrupted : nat -> bool;
  env_interrupted_manifest : bool;
  env_interrupted_report : bool;
  (** [datetime.utcnow().strftime("%Y/%m/%d")] in iteration [idx]. *)
  env_today : nat -> string;
  (** [s3.upload_file(Filename, Bucket, Key, ...)] issued in iteration
      [idx]: [None] when it returns, [Some msg] when it raises. *)
  env_upload : nat -> string -> string -> option string;
  (** [time.time()] at the start, in iteration [idx], at the end. *)
  env_time_start : Q;
  env_time : nat -> Q;
  env_time_end : Q;
  (** [save_hash_db_atomic]: [Some msg] when writing the temporary file
      or the replace raises. *)
  env_save_error : option string;
  (** The [list_objects_v2] pagination: the [Size] of every object
      (0 when absent), or [None] when the listing raises. *)
  env_listing : option (list Z);
  (** [f"{x:.2f}"]. *)
  env_fmt2 : Q -> string;
  (** An exception that escapes [backup_run], caught by [__main__]. *)
  env_fatal : option string;
}.

(** ** Hash ledger (lines 160-174) *)

Inductive LedgerFile : Type :=
  | NoFile
  | Corrupt
  | Stored (db : gmap string string).

Definition load_hash_db (disk : LedgerFile) : gmap string string :=
  match disk with
  | Stored db => db
  | NoFile | Corrupt => ∅
  end.

(** Remote and durable effects, in the order they happen. *)
Inductive Effect : Type :=
  | PutObject (filename bucket key : string)
  | SaveLedger (db : gmap string string)
  | ListObjects (bucket : string).

(** [save_hash_db_atomic]: the temporary file is written first and then
    moved over the ledger, so a failure leaves the ledger as it was. *)
Definition save_hash_db_atomic (env : Env) (db : gmap string string)
    (disk : LedgerFile) : option string * LedgerFile :=
  match env_save_error env with
  | Some msg => (Some msg, disk)
  | None => (None, Stored db)
  end.

(** ** [human_readable_size] (lines 177-182) *)

Definition Qltb (a b : Q) : bool := negb (Qle_bool b a).

Fixpoint human_readable_size_from (fmt2 : Q -> string)
    (units : list string) (bytes_count : Q) : string :=
  match units with
  | [] => fmt2 bytes_count +:+ " TB"
  | unit :: rest =>
      if Qltb bytes_count 1024 || bool_decide (unit = "TB")
      then fmt2 bytes_count +:+ " " +:+ unit
      else human_readable_size_from fmt2 rest (bytes_count / 1024)
  end.

Definition human_readable_size (fmt2 : Q -> string) (bytes_count : Q)
    : string :=
  human_readable_size_from fmt2 ["B"; "KB"; "MB"; "GB"; "TB"] bytes_count.

(** ** Records of a run *)

Inductive Action : Type := DryUpload | UploadedAction.

Record UploadEntry := {
  ue_path : string;
  ue_s3_key : string;
  ue_size_bytes : Z;
  ue_hash : string;
  ue_action : Action;
}.

Inductive ErrorEntry : Type :=
  | FileError (path error : string)
  | SaveHashDbError (error : string)
  | FatalError (error : string).

Record ProgressSample := {
  ps_processed_files : nat;
  ps_elapsed_seconds : Q;
  ps_estimated_total_seconds : Q;
  ps_estimated_remaining_seconds : Q;
}.

(** The variables [backup_run] mutates in its per-file loop; the
    [run_manifest] lists are the [man_] fields. *)
Record LoopState := {
  updated_hashes : gmap string string;
  uploaded_keys : list string;
  duplicate_skips : list (string * string);
  errors : list ErrorEntry;
  man_uploaded : list UploadEntry;
  man_skipped_duplicates : list (string * string);
  man_errors : list ErrorEntry;
  man_unchanged : list string;
  man_progress_samples : list ProgressSample;
  content_hash_to_s3key : gmap string string;
  processed_files : nat;
  processed_bytes : Z;
  seen_paths : gset string;
  drive_uploaded : gmap string nat;
  effects : list Effect;
}.

Definition initial_state (persisted : gmap string string)
    (labels : list string) : LoopState :=
  {| updated_hashes := persisted;
     uploaded_keys := [];
     duplicate_skips := [];
     errors := [];
     man_uploaded := [];
     man_skipped_duplicates := [];
     man_errors := [];
     man_unchanged := [];
     man_progress_samples := [];
     content_hash_to_s3key := ∅;
     processed_files := 0;
     processed_bytes := 0;
     seen_paths := ∅;
     drive_uploaded := list_to_map ((fun v => (v, 0%nat)) <$> labels);
     effects := [] |}.

(** ** The per-file loop of [backup_run] (lines 338-450) *)

Section Engine.
Context (cfg : Config) (fs : FS) (env : Env).
Context (dry_run : bool).
Context (persisted_hashes : gmap string string).
Context (start_time : Q) (total_files : nat).

(** Lines 352-369: the destination key. *)
Definition matched_source (abs_path : string) : option string :=
  List.find (fun src =>
    String.prefix (fs_normcase fs (fs_abspath fs src))
                  (fs_normcase fs (fs_abspath fs abs_path)))
    (SOURCE_DRIVES cfg).*1.

Definition relpath_of (abs_path : string) : string :=
  match matched_source abs_path with
  | Some src =>
      if decide (src = "") then fs_basename fs abs_path
      else default (fs_basename fs abs_path) (fs_relpath fs abs_path src)
  | None => fs_basename fs abs_path
  end.

Definition s3_key_of (idx : nat) (abs_path drive_name : string) : string :=
  Str.replace_char "\" "/"
    (env_today env idx +:+ "/" +:+ drive_name +:+ "/" +:+
     relpath_of abs_path).

(** Lines 343-346. *)
Definition mark_seen (abs_path : string) (st : LoopState) : LoopState :=
  {| updated_hashes := updated_hashes st;
     uploaded_keys := uploaded_keys st;
     duplicate_skips := duplicate_skips st;
     errors := errors st;
     man_uploaded := man_uploaded st;
     man_skipped_duplicates := man_skipped_duplicates st;
     man_errors := man_errors st;
     man_unchanged := man_unchanged st;
     man_progress_samples := man_progress_samples st;
     content_hash_to_s3key := content_hash_to_s3key st;
     processed_files := S (processed_files st);
     processed_bytes := processed_bytes st;
     seen_paths := {[abs_path]} ∪ seen_paths st;
     drive_uploaded := drive_uploaded st;
     effects := effects st |}.

(** Lines 374-376 and 432-434. *)
Definition record_error (abs_path msg : string) (st : LoopState)
    : LoopState :=
  let e := FileError (mask_path_for_output fs abs_path) msg in
  {| updated_hashes := updated_hashes st;
     uploaded_keys := uploaded_keys st;
     duplicate_skips := duplicate_skips st;
     errors := errors st ++ [e];
     man_uploaded := man_uploaded st;
     man_skipped_duplicates := man_skipped_duplicates st;
     man_errors := man_errors st ++ [e];
     man_unchanged := man_unchanged st;
     man_progress_samples := man_progress_samples st;
     content_hash_to_s3key := content_hash_to_s3key st;
     processed_files := processed_files st;
     processed_bytes := processed_bytes st;
     seen_paths := seen_paths st;
     drive_uploaded := drive_uploaded st;
     effects := effects st |}.

(** Lines 380-384. *)
Definition record_duplicate (abs_path file_hash existing_key : string)
    (st : LoopState) : LoopState :=
  let d := (mask_path_for_output fs abs_path, mask_s3_key existing_key) in
  {| updated_hashes := <[abs_path := file_hash]> (updated_hashes st);
     uploaded_keys := uploaded_keys st;
     duplicate_skips := duplicate_skips st ++ [d];
     errors := errors st;
     man_uploaded := man_uploaded st;
     man_skipped_duplicates := man_skipped_duplicates st ++ [d];
     man_errors := man_errors st;
     man_unchanged := man_unchanged st;
     man_progress_samples := man_progress_samples st;
     content_hash_to_s3key := content_hash_to_s3key st;
     processed_files := processed_files st;
     processed_bytes := processed_bytes st;
     seen_paths := seen_paths st;
     drive_uploaded := drive_uploaded st;
     effects := effects st |}.

(** Lines 388-389. *)
Definition record_unchanged (abs_path : string) (st : LoopState)
    : LoopState :=
  {| updated_hashes := updated_hashes st;
     uploaded_keys := uploaded_keys st;
     duplicate_skips := duplicate_skips st;
     errors := errors st;
     man_uploaded := man_uploaded st;
     man_skipped_duplicates := man_skipped_duplicates st;
     man_errors := man_errors st;
     man_unchanged :=
       man_unchanged st ++ [mask_path_for_output fs abs_path];
     man_progress_samples := man_progress_samples st;
     content_hash_to_s3key := content_hash_to_s3key st;
     processed_files := processed_files st;
     processed_bytes := processed_bytes st;
     seen_paths := seen_paths st;
     drive_uploaded := drive_uploaded st;
     effects := effects st |}.

(** Lines 394-405 (dry run) and 419-430 (after a successful put). *)
Definition record_upload (action : Action)
    (abs_path drive_name s3_key : string) (file_size : Z)
    (file_hash : string) (st : LoopState) : LoopState :=
  {| updated_hashes := <[abs_path := file_hash]> (updated_hashes st);
     uploaded_keys := uploaded_keys st ++ [s3_key];
     duplicate_skips := duplicate_skips st;
     errors := errors st;
     man_uploaded :=
       man_uploaded st ++
       [ {| ue_path := mask_path_for_output fs abs_path;
            ue_s3_key := mask_s3_key s3_key;
            ue_size_bytes := file_size;
            ue_hash := file_hash;
            ue_action := action |} ];
     man_skipped_duplicates := man_skipped_duplicates st;
     man_errors := man_errors st;
     man_unchanged := man_unchanged st;
     man_progress_samples := man_progress_samples st;
     content_hash_to_s3key :=
       <[file_hash := s3_key]> (content_hash_to_s3key st);
     processed_files := processed_files st;
     processed_bytes := processed_bytes st;
     seen_paths := seen_paths st;
     drive_uploaded :=
       <[drive_name := S (default 0%nat (drive_uploaded st !! drive_name))]>
         (drive_uploaded st);
     effects := effects st |}.

(** The call [s3.upload_file] of line 408, as an effect. *)
Definition log_effect (e : Effect) (st : LoopState) : LoopState :=
  {| updated_hashes := updated_hashes st;
     uploaded_keys := uploaded_keys st;
     duplicate_skips := duplicate_skips st;
     errors := errors st;
     man_uploaded := man_uploaded st;
     man_skipped_duplicates := man_skipped_duplicates st;
     man_errors := man_errors st;
     man_unchanged := man_unchanged st;
     man_progress_samples := man_progress_samples st;
     content_hash_to_s3key := content_hash_to_s3key st;
     processed_files := processed_files st;
     processed_bytes := processed_bytes st;
     seen_paths := seen_paths st;
     drive_uploaded := drive_uploaded st;
     effects := effects st ++ [e] |}.

(** Lines 436-450: the progress block at the end of the loop body. *)
Definition progress_sample (idx files_done : nat) : ProgressSample :=
  let elapsed := (env_time env idx - start_time)%Q in
  let est_total :=
    match total_files with
    | O => elapsed
    | _ => ((elapsed / inject_Z (Z.of_nat files_done))
            * inject_Z (Z.of_nat total_files))%Q
    end in
  let est_remaining :=
    if Qltb 0 (est_total - elapsed) then (est_total - elapsed)%Q else 0%Q in
  {| ps_processed_files := files_done;
     ps_elapsed_seconds := elapsed;
     ps_estimated_total_seconds := est_total;
     ps_estimated_remaining_seconds := est_remaining |}.

Definition record_progress (idx : nat) (file_size : Z) (st : LoopState)
    : LoopState :=
  let files_done := processed_files st in
  {| updated_hashes := updated_hashes st;
     uploaded_keys := uploaded_keys st;
     duplicate_skips := duplicate_skips st;
     errors := errors st;
     man_uploaded := man_uploaded st;
     man_skipped_duplicates := man_skipped_duplicates st;
     man_errors := man_errors st;
     man_unchanged := man_unchanged st;
     man_progress_samples :=
       if (0 <? files_done)%nat
       then man_progress_samples st ++ [progress_sample idx files_done]
       else man_progress_samples st;
     content_hash_to_s3key := content_hash_to_s3key st;
     processed_files := processed_files st;
     processed_bytes := (processed_bytes st + file_size)%Z;
     seen_paths := seen_paths st;
     drive_uploaded := drive_uploaded st;
     effects := effects st |}.

(** The loop body for one candidate, after the interruption test. *)
Definition process_file (idx : nat) (c : string * string)
    (st : LoopState) : LoopState :=
  let '(abs_path, drive_name) := c in
  if decide (abs_path ∈ seen_paths st) then st            (* continue *)
  else
    let st := mark_seen abs_path st in
    let file_size := default 0%Z (fs_getsize fs abs_path) in
    let s3_key := s3_key_of idx abs_path drive_name in
    match fs_sha256 fs abs_path with
    | inl e => record_error abs_path e st                 (* continue *)
    | inr file_hash =>
        match content_hash_to_s3key st !! file_hash with
        | Some existing_key =>
            record_duplicate abs_path file_hash existing_key st
                                                          (* continue *)
        | None =>
            if decide (persisted_hashes !! abs_path = Some file_hash)
            then record_unchanged abs_path st             (* continue *)
            else
              let st :=
                if dry_run then
                  record_upload DryUpload abs_path drive_name s3_key
                    file_size file_hash st
                else
                  let st :=
                    log_effect
                      (PutObject abs_path (S3_BUCKET cfg) s3_key) st in
                  match env_upload env idx abs_path s3_key with
                  | None =>
                      record_upload UploadedAction abs_path drive_name
                        s3_key file_size file_hash st
                  | Some e => record_error abs_path e st
                  end in
              record_progress idx file_size st
        end
    end.

(** [for idx, (abs_path, drive_name) in enumerate(candidates, start=1)],
    with the [break] on [_interrupted]. *)
Fixpoint process_loop (idx : nat) (candidates : list (string * string))
    (st : LoopState) : LoopState :=
  match candidates with
  | [] => st
  | c :: rest =>
      if env_interrupted env idx then st                  (* break *)
      else process_loop (S idx) rest (process_file idx c st)
  end.

End Engine.

(** ** [backup_run] as a whole (lines 294-517) *)

Record Manifest := {
  rm_dry_run : bool;
  rm_uploaded : list UploadEntry;
  rm_skipped_duplicates : list (string * string);
  rm_errors : list ErrorEntry;
  rm_unchanged : list string;
  rm_progress_samples : list ProgressSample;
  rm_total_files : nat;
  rm_total_bytes : Z;
  rm_duration_seconds : Q;
  rm_files_uploaded_count : nat;
  rm_files_processed_count : nat;
  rm_bytes_processed : Z;
  rm_interrupted : bool;
}.

Inductive DriveLine : Type :=
  | DriveOffline (drive_name : string)
  | DriveOnline (drive_name : string) (pct : Q).

Record Report := {
  rep_uploaded_keys : list string;
  rep_duplicate_skips : list (string * string);
  rep_errors : list ErrorEntry;
  rep_duration_seconds : Q;
  rep_estimated_monthly_cost_usd : Q;
  rep_bucket_size_readable : string;
  rep_interrupted : bool;
  rep_files_processed : nat;
  rep_files_uploaded : nat;
  rep_drive_report_lines : list DriveLine;
}.

(** What a run leaves behind: the two values it returns, the ledger
    file, the in-memory ledger at the end and the effects it caused. *)
Record RunResult := {
  run_report : Report;
  run_manifest : Manifest;
  run_ledger_file : LedgerFile;
  run_updated_hashes : gmap string string;
  run_effects : list Effect;
}.

Section Run.
Context (cfg : Config) (fs : FS) (env : Env).

(** Line 315: the candidate list the loop consumes. *)
Definition candidates_of_run : list (string * string) :=
  dict_fromkeys (gather_candidate_files fs cfg).1.

(** Lines 318-327. *)
Definition drive_labels : list string := (SOURCE_DRIVES cfg).*2.

Definition count_drive (totals : gmap string nat) (c : string * string)
    : gmap string nat :=
  <[c.2 := S (default 0%nat (totals !! c.2))]> totals.

Definition drive_totals_of (candidates : list (string * string))
    : gmap string nat :=
  foldl count_drive
    (list_to_map ((fun v => (v, 0%nat)) <$> drive_labels)) candidates.

Definition total_bytes_of (candidates : list (string * string)) : Z :=
  foldl (fun acc c => (acc + default 0 (fs_getsize fs c.1))%Z) 0%Z
        candidates.

(** Lines 490-499. *)
Definition drive_line (totals uploaded : gmap string nat)
    (sd : string * string) : DriveLine :=
  let '(src, drive_name) := sd in
  if fs_exists fs src then
    let total := default 0%nat (totals !! drive_name) in
    let up := default 0%nat (uploaded !! drive_name) in
    let pct :=
      match total with
      | O => match up with O => 0%Q | _ => 100%Q end
      | _ => (inject_Z (Z.of_nat up) / inject_Z (Z.of_nat total) * 100)%Q
      end in
    DriveOnline drive_name pct
  else DriveOffline drive_name.

(** Lines 472-487: size of the bucket and the cost estimate. *)
Definition bucket_estimate (dry_run : bool)
    : string * Q * list Effect :=
  if dry_run then ("unknown", 0%Q, [])
  else
    match env_listing env with
    | Some sizes =>
        let total_bytes_bucket := foldl Z.add 0%Z sizes in
        let total_gb := (inject_Z total_bytes_bucket / inject_Z (1024 ^ 3))%Q in
        ( human_readable_size (env_fmt2 env) (inject_Z total_bytes_bucket),
          (total_gb * PRICE_PER_GB_DEEP_ARCHIVE)%Q,
          [ListObjects (S3_BUCKET cfg)] )
    | None => ("unknown", 0%Q, [ListObjects (S3_BUCKET cfg)])
    end.

Definition backup_run (dry_run : bool) (disk : LedgerFile) : RunResult :=
  let start_time := env_time_start env in
  let persisted_hashes := load_hash_db disk in
  let candidates := candidates_of_run in
  let total_files := length candidates in
  let total_bytes := total_bytes_of candidates in
  let drive_totals := drive_totals_of candidates in
  let st :=
    process_loop cfg fs env dry_run persisted_hashes start_time
      total_files 1 candidates
      (initial_state persisted_hashes drive_labels) in
  let duration := (env_time_end env - start_time)%Q in
  (* lines 463-470 *)
  let '(save_error, disk', save_effects) :=
    if dry_run then (None, disk, [])
    else
      let '(r, d) := save_hash_db_atomic env (updated_hashes st) disk in
      (r, d, [SaveLedger (updated_hashes st)]) in
  let all_errors :=
    man_errors st ++
    match save_error with
    | Some msg => [SaveHashDbError msg]
    | None => []
    end in
  let '(readable_size, estimated_cost, list_effects) :=
    bucket_estimate dry_run in
  {| run_report :=
       {| rep_uploaded_keys := mask_s3_key <$> uploaded_keys st;
          rep_duplicate_skips := duplicate_skips st;
          rep_errors := all_errors;
          rep_duration_seconds := duration;
          rep_estimated_monthly_cost_usd := estimated_cost;
          rep_bucket_size_readable := readable_size;
          rep_interrupted := env_interrupted_report env;
          rep_files_processed := processed_files st;
          rep_files_uploaded := length (uploaded_keys st);
          rep_drive_report_lines :=
            drive_line drive_totals (drive_uploaded st)
              <$> SOURCE_DRIVES cfg |};
     run_manifest :=
       {| rm_dry_run := dry_run;
          rm_uploaded := man_uploaded st;
          rm_skipped_duplicates := man_skipped_duplicates st;
          rm_errors := all_errors;
          rm_unchanged := man_unchanged st;
          rm_progress_samples := man_progress_samples st;
          rm_total_files := total_files;
          rm_total_bytes := total_bytes;
          rm_duration_seconds := duration;
          rm_files_uploaded_count := length (uploaded_keys st);
          rm_files_processed_count := processed_files st;
          rm_bytes_processed := processed_bytes st;
          rm_interrupted := env_interrupted_manifest env |};
     run_ledger_file := disk';
     run_updated_hashes := updated_hashes st;
     run_effects := effects st ++ save_effects ++ list_effects |}.

(** ** [__main__] (lines 557-586, 649-652) *)

Definition fatal_report (e : string) : Report :=
  {| rep_uploaded_keys := [];
     rep_duplicate_skips := [];
     rep_errors := [FatalError e];
     rep_duration_seconds := 0;
     rep_estimated_monthly_cost_usd := 0;
     rep_bucket_size_readable := "unknown";
     rep_interrupted := true;
     rep_files_processed := 0;
     rep_files_uploaded := 0;
     rep_drive_report_lines :=
       (fun sd => if fs_exists fs sd.1 then DriveOnline sd.2 0
                  else DriveOffline sd.2) <$> SOURCE_DRIVES cfg |}.

Definition main_report (dry_run : bool) (disk : LedgerFile) : Report :=
  match env_fatal env with
  | Some e => fatal_report e
  | None => run_report (backup_run dry_run disk)
  end.

Definition has_errors (report : Report) : bool :=
  match rep_errors report with
  | [] => false
  | _ :: _ => true
  end.

Definition run_status (report : Report) : string :=
  let status := if has_errors report then "Failed" else "Completed" in
  if rep_interrupted report then
    if decide (status = "Failed") then "Failed (Interrupted)"
    else "Interrupted"
  else status.

Definition exit_code (report : Report) : Z :=
  if rep_interrupted report || has_errors report then 2 else 0.

Definition main (dry_run : bool) (disk : LedgerFile) : Z :=
  exit_code (main_report dry_run disk).

End Run.

(** ** The ways through the loop body

    [StepCase idx abs_path drive_name st st'] lists, with the tests that
    lead there, the state [st'] in which one pass through the loop body
    leaves [st]. *)

Section StepCases.
Context (cfg : Config) (fs : FS) (env : Env).
Context (dry_run : bool) (persisted : gmap string string).
Context (start_time : Q) (total_files : nat).

Local Abbreviation key_of := (s3_key_of cfg fs env).

Inductive StepCase (idx : nat) (abs_path drive_name : string)
    (st : LoopState) : LoopState -> Prop :=
  | AlreadySeen :
      abs_path ∈ seen_paths st ->
      StepCase idx abs_path drive_name st st
  | HashFailed e :
      abs_path ∉ seen_paths st ->
      fs_sha256 fs abs_path = inl e ->
      StepCase idx abs_path drive_name st
        (record_error fs abs_path e (mark_seen abs_path st))
  | DuplicateContent file_hash existing_key :
      abs_path ∉ seen_paths st ->
      fs_sha256 fs abs_path = inr file_hash ->
      content_hash_to_s3key st !! file_hash = Some existing_key ->
      StepCase idx abs_path drive_name st
        (record_duplicate fs abs_path file_hash existing_key
           (mark_seen abs_path st))
  | Unchanged file_hash :
      abs_path ∉ seen_paths st ->
      fs_sha256 fs abs_path = inr file_hash ->
      content_hash_to_s3key st !! file_hash = None ->
      persisted !! abs_path = Some file_hash ->
      StepCase idx abs_path drive_name st
        (record_unchanged fs abs_path (mark_seen abs_path st))
  | DryUploaded file_hash :
      abs_path ∉ seen_paths st ->
      fs_sha256 fs abs_path = inr file_hash ->
      content_hash_to_s3key st !! file_hash = None ->
      persisted !! abs_path ≠ Some file_hash ->
      dry_run = true ->
      StepCase idx abs_path drive_name st
        (record_progress env start_time total_files idx
           (default 0%Z (fs_getsize fs abs_path))
           (record_upload fs DryUpload abs_path drive_name
              (key_of idx abs_path drive_name)
              (default 0%Z (fs_getsize fs abs_path)) file_hash
              (mark_seen abs_path st)))
  | Uploaded file_hash :
      abs_path ∉ seen_paths st ->
      fs_sha256 fs abs_path = inr file_hash ->
      content_hash_to_s3key st !! file_hash = None ->
      persisted !! abs_path ≠ Some file_hash ->
      dry_run = false ->
      env_upload env idx abs_path (key_of idx abs_path drive_name) = None ->
      StepCase idx abs_path drive_name st
        (record_progress env start_time total_files idx
           (default 0%Z (fs_getsize fs abs_path))
           (record_upload fs UploadedAction abs_path drive_name
              (key_of idx abs_path drive_name)
              (default 0%Z (fs_getsize fs abs_path)) file_hash
              (log_effect
                 (PutObject abs_path (S3_BUCKET cfg)
                    (key_of idx abs_path drive_name))
                 (mark_seen abs_path st))))
  | UploadFailed file_hash e :
      abs_path ∉ seen_paths st ->
      fs_sha256 fs abs_path = inr file_hash ->
      content_hash_to_s3key st !! file_hash = None ->
      persisted !! abs_path ≠ Some file_hash ->
      dry_run = false ->
      env_upload env idx abs_path (key_of idx abs_path drive_name)
        = Some e ->
      StepCase idx abs_path drive_name st
        (record_progress env start_time total_files idx
           (default 0%Z (fs_getsize fs abs_path))
           (record_error fs abs_path e
              (log_effect
                 (PutObject abs_path (S3_BUCKET cfg)
                    (key_of idx abs_path drive_name))
                 (mark_seen abs_path st)))).

End StepCases.

(** [s3.upload_file] calls among the effects. *)
Definition is_put (e : Effect) : Prop :=
  match e with
  | PutObject _ _ _ => True
  | _ => False
  end.

(** The entries of an error list that stand for one file's failure. *)
Definition is_file_error (e : ErrorEntry) : bool :=
  match e with
  | FileError _ _ => true
  | _ => false
  end.

Definition file_errors (es : list ErrorEntry) : list ErrorEntry :=
  List.filter is_file_error es.

(** The uploads recorded for one content hash. *)
Definition uploads_of_hash (h : string) (l : list UploadEntry)
    : list UploadEntry :=
  List.filter (fun e => bool_decide (ue_hash e = h)) l.

(** How many outcomes other than a failure are recorded: uploads (real
    or simulated), duplicate skips and unchanged skips. *)
Definition outcomes (st : LoopState) : nat :=
  length (man_uploaded st) + length (man_skipped_duplicates st)
  + length (man_unchanged st).

Definition rm_outcomes (m : Manifest) : nat :=
  length (rm_uploaded m) + length (rm_skipped_duplicates m)
  + length (rm_unchanged m).

(** The state in which the loop of [backup_run] ends. *)
Definition run_loop_state (cfg : Config) (fs : FS) (env : Env)
    (dry_run : bool) (disk : LedgerFile) : LoopState :=
  process_loop cfg fs env dry_run (load_hash_db disk) (env_time_start env)
    (length (candidates_of_run cfg fs)) 1 (candidates_of_run cfg fs)
    (initial_state (load_hash_db disk) (drive_labels cfg)).

(** Every transfer the loop attempts succeeds: the run is a dry run,
    or the store accepts every put. *)
Definition transfers_succeed (env : Env) (dry_run : bool) : Prop :=
  dry_run = true \/ forall idx p key, env_upload env idx p key = None.

(** The signal flag is never seen set by the loop. *)
Definition never_interrupted (env : Env) : Prop :=
  forall idx, env_interrupted env idx = false.

(** A candidate whose file can be hashed, and the error entry of one
    whose file cannot. *)
Definition readable (fs : FS) (c : string * string) : bool :=
  match fs_sha256 fs c.1 with
  | inr _ => true
  | inl _ => false
  end.

Definition hash_failure (fs : FS) (c : string * string)
    : list ErrorEntry :=
  match fs_sha256 fs c.1 with
  | inl e => [FileError (mask_path_for_output fs c.1) e]
  | inr _ => []
  end.

(** Two invariants of the loop, about one content hash [h1].  Its first
    copy, at [pA], went to the remote key [kA] and is recorded as the
    upload [eA]; a later copy, at [pB], was skipped against that key. *)
Definition first_copy_uploaded (h1 pA kA : string) (eA : UploadEntry)
    (st : LoopState) : Prop :=
  content_hash_to_s3key st !! h1 = Some kA
  /\ uploads_of_hash h1 (man_uploaded st) = [eA]
  /\ pA ∈ seen_paths st
  /\ updated_hashes st !! pA = Some h1.

Definition later_copy_skipped (fs : FS) (h1 pB kA : string)
    (st : LoopState) : Prop :=
  (mask_path_for_output fs pB, mask_s3_key kA) ∈ man_skipped_duplicates st
  /\ updated_hashes st !! pB = Some h1
  /\ pB ∈ seen_paths st.

(** The manifest entry of an upload. *)
Definition upload_entry (fs : FS) (dry_run : bool)
    (abs_path s3_key file_hash : string) : UploadEntry :=
  {| ue_path := mask_path_for_output fs abs_path;
     ue_s3_key := mask_s3_key s3_key;
     ue_size_bytes := default 0%Z (fs_getsize fs abs_path);
     ue_hash := file_hash;
     ue_action := if dry_run then DryUpload else UploadedAction |}.

(** Two more invariants of the loop.  [ledger_tracks]: the working
    ledger holds the current hash of every path seen so far and the
    loaded entry of every other path.  [only_unchanged]: so far every
    processed file was skipped as unchanged. *)
Definition ledger_tracks (fs : FS) (persisted : gmap string string)
    (st : LoopState) : Prop :=
  (forall p, p ∈ seen_paths st ->
     exists h, fs_sha256 fs p = inr h /\ updated_hashes st !! p = Some h)
  /\ (forall p, p ∉ seen_paths st ->
        updated_hashes st !! p = persisted !! p).

Definition only_unchanged (st : LoopState) : Prop :=
  content_hash_to_s3key st = ∅
  /\ man_uploaded st = []
  /\ uploaded_keys st = []
  /\ man_skipped_duplicates st = []
  /\ man_errors st = []
  /\ effects st = []
  /\ length (man_unchanged st) = processed_files st.

(** A ledger that holds the current hash of every candidate. *)
Definition ledger_current (fs : FS) (ledger : gmap string string)
    (cands : list (string * string)) : Prop :=
  forall c, c ∈ cands ->
    exists h, fs_sha256 fs c.1 = inr h /\ ledger !! c.1 = Some h.

(** ** [mask_arn] (lines 35-43) *)

Definition mask_arn (arn : string) : string :=
  if decide (arn = "") then "<REDACTED_ARN>"
  else
    let parts := Str.split_on ":" arn in
    if (length parts <? 6)%nat then mask_partial arn 3 4
    else
      let service := nth 2 parts "" in
      let resource := nth 5 parts "" in
      "arn:aws:" +:+ service +:+ ":<REDACTED_REGION>:<REDACTED_ACCOUNT>:"
      +:+ mask_partial resource 3 4.

(** ** Further invariants of the loop

    [accounted]: every processed file is a distinct path and has exactly
    one outcome, a failure or not; the error list holds file failures
    only.  [report_agrees]: the lists kept for the report mirror those
    kept for the manifest.  [ledger_sound]: an entry of the working
    ledger is a loaded entry or the hash computed for that path. *)
Definition accounted (st : LoopState) : Prop :=
  processed_files st = size (seen_paths st)
  /\ processed_files st = (outcomes st + length (man_errors st))%nat
  /\ file_errors (man_errors st) = man_errors st.

Definition report_agrees (st : LoopState) : Prop :=
  mask_s3_key <$> uploaded_keys st = ue_s3_key <$> man_uploaded st
  /\ duplicate_skips st = man_skipped_duplicates st
  /\ errors st = man_errors st.

Definition ledger_sound (fs : FS) (persisted : gmap string string)
    (st : LoopState) : Prop :=
  forall p h,
    updated_hashes st !! p = Some h ->
    persisted !! p = Some h \/ fs_sha256 fs p = inr h.

(** The puts of a run: each one goes to the configured bucket, for a
    file the loop has seen; in a real run every key recorded as
    uploaded was put. *)
Definition puts_accounted (cfg : Config) (dry_run : bool)
    (st : LoopState) : Prop :=
  Forall (fun e => exists f k,
            e = PutObject f (S3_BUCKET cfg) k /\ f ∈ seen_paths st)
         (effects st)
  /\ (dry_run = false ->
      forall k, k ∈ uploaded_keys st ->
        exists f, PutObject f (S3_BUCKET cfg) k ∈ effects st)
  /\ (length (effects st) <= processed_files st)%nat.

(** How many puts a list of effects holds. *)
Definition is_put_effect (e : Effect) : bool :=
  match e with
  | PutObject _ _ _ => true
  | _ => false
  end.

Definition put_count (l : list Effect) : nat :=
  length (List.filter is_put_effect l).

(** [c in s] for a single character. *)
Fixpoint has_char (c : ascii) (s : string) : bool :=
  match s with
  | EmptyString => false
  | String a t => Ascii.eqb a c || has_char c t
  end.



(** How many candidates carry the label [d]. *)
Definition count_label (d : string) (cands : list (string * string)) : nat :=
  length (List.filter (fun c => bool_decide (c.2 = d)) cands).

(** [dedup_sound]: a hash without a remembered key has no recorded
    upload, no hash has more than one, and every remembered key and
    every duplicate skip names the key of a recorded upload.
    [samples_in_range]: every progress sample reports between one and
    the current number of processed files. *)
Definition dedup_sound (st : LoopState) : Prop :=
  (forall h, content_hash_to_s3key st !! h = None ->
     uploads_of_hash h (man_uploaded st) = [])
  /\ (forall h, (length (uploads_of_hash h (man_uploaded st)) <= 1)%nat)
  /\ (forall h k, content_hash_to_s3key st !! h = Some k ->
        mask_s3_key k ∈ ue_s3_key <$> man_uploaded st)
  /\ (forall d, d ∈ man_skipped_duplicates st ->
        d.2 ∈ ue_s3_key <$> man_uploaded st).

Definition samples_in_range (st : LoopState) : Prop :=
  Forall (fun s => (1 <= ps_processed_files s <= processed_files st)%nat)
         (man_progress_samples st).

(** ** A small concrete world

    A POSIX machine: one source [/] labelled [MAIN] whose only allowed
    subtree is [/Pictures].  Paths are already absolute and normalised,
    so [abspath], [normcase] and [normpath] leave them alone. *)

Module Sample.

Definition ends_with_slash (s : string) : bool :=
  match Str.last_chars 1 s with
  | "/" => true
  | _ => false
  end.

Definition join (a b : string) : string :=
  if ends_with_slash a then a +:+ b else a +:+ "/" +:+ b.

Definition basename (p : string) : string :=
  List.last (Str.split_on "/" p) "".

Definition relpath (p start : string) : option string :=
  if String.prefix start p
  then Some (String.substring (String.length start)
               (String.length p - String.length start) p)
  else None.

Definition cfg : Config :=
  {| S3_BUCKET := "bucket"; KMS_KEY_ARN := "key";
     SOURCE_DRIVES := [("/", "MAIN")] |}.

(** A file system with the given tree below [/Pictures] and the given
    result of hashing each path. *)
Definition fs_with (pictures : list entry)
    (sha : string -> string + string) : FS :=
  {| fs_exists := fun p => bool_decide (p = "/" ∨ p = "/Pictures");
     fs_listdir := fun _ => None;
     fs_tree := fun p => if decide (p = "/Pictures") then pictures else [];
     fs_getsize := fun _ => Some 10%Z;
     fs_sha256 := sha;
     fs_abspath := id;
     fs_normcase := id;
     fs_normpath := id;
     fs_join := join;
     fs_relpath := relpath;
     fs_basename := basename;
     mask_path_for_output := fun p => mask_partial p 3 4 |}.

(** A quiet environment: no signal, every put succeeds, the clock
    advances one second per file. *)
Definition env_with (interrupted : nat -> bool)
    (upload : nat -> string -> string -> option string) : Env :=
  {| env_interrupted := interrupted;
     env_interrupted_manifest := false;
     env_interrupted_report := false;
     env_today := fun _ => "2026/01/02";
     env_upload := upload;
     env_time_start := 0;
     env_time := fun idx => inject_Z (Z.of_nat idx);
     env_time_end := 100;
     env_save_error := None;
     env_listing := Some [10%Z; 20%Z];
     env_fmt2 := fun _ => "0.00";
     env_fatal := None |}.

Definition quiet : Env := env_with (fun _ => false) (fun _ _ _ => None).

(** The store rejects every put. *)
Definition store_down : Env :=
  env_with (fun _ => false) (fun _ _ _ => Some "EndpointConnectionError").

(** One picture, already in the ledger. *)
Definition sha_all_H1 (p : string) : string + string := inr "H1".

Definition fs_one : FS := fs_with [File "a.jpg"] sha_all_H1.

Definition ledger_one : gmap string string :=
  {[ "/Pictures/a.jpg" := "H1" ]}.

(** Two pictures with the same bytes. *)
Definition fs_two_copies : FS :=
  fs_with [File "a.jpg"; File "b.jpg"] sha_all_H1.

(** Three files, one of which cannot be read. *)
Definition sha_locked (p : string) : string + string :=
  if decide (p = "/Pictures/locked.bin") then inl "Permission denied"
  else if decide (p = "/Pictures/c.txt") then inr "H2"
  else inr "H1".

Definition fs_locked : FS :=
  fs_with [File "a.jpg"; File "locked.bin"; File "c.txt"] sha_locked.

(** The ledger save fails. *)
Definition save_fails : Env :=
  {| env_interrupted := fun _ => false;
     env_interrupted_manifest := false;
     env_interrupted_report := false;
     env_today := fun _ => "2026/01/02";
     env_upload := fun _ _ _ => None;
     env_time_start := 0;
     env_time := fun idx => inject_Z (Z.of_nat idx);
     env_time_end := 100;
     env_save_error := Some "No space left on device";
     env_listing := Some [10%Z; 20%Z];
     env_fmt2 := fun _ => "0.00";
     env_fatal := None |}.

(** The signal arrives while the first file is being processed. *)
Definition interrupted_after_first : Env :=
  env_with (fun idx => bool_decide (2 <= idx)%nat) (fun _ _ _ => None).

(** Only the unreadable file. *)
Definition fs_only_locked : FS := fs_with [File "locked.bin"] sha_locked.

(** A second source inside the first one: [/Users/bob] is reached both
    as a profile below [/] and as a source of its own. *)
Definition cfg_nested : Config :=
  {| S3_BUCKET := "bucket"; KMS_KEY_ARN := "key";
     SOURCE_DRIVES := [("/", "MAIN"); ("/Users/bob", "BOB")] |}.

Definition fs_nested : FS :=
  {| fs_exists := fun p =>
       bool_decide (p ∈ ["/"; "/Users"; "/Users/bob"; "/Users/bob/Pictures"]);
     fs_listdir := fun p =>
       if decide (p = "/Users") then Some ["bob"] else None;
     fs_tree := fun p =>
       if decide (p = "/Users/bob/Pictures")
       then [File "z.jpg"; File "a.jpg"] else [];
     fs_getsize := fun _ => Some 10%Z;
     fs_sha256 := sha_all_H1;
     fs_abspath := id;
     fs_normcase := id;
     fs_normpath := id;
     fs_join := join;
     fs_relpath := relpath;
     fs_basename := basename;
     mask_path_for_output := fun p => mask_partial p 3 4 |}.

End Sample.

(** ** More concrete worlds *)

Module Sample2.

(** No configured source is mounted. *)
Definition fs_offline : FS :=
  {| fs_exists := fun _ => false;
     fs_listdir := fun _ => None;
     fs_tree := fun _ => [];
     fs_getsize := fun _ => None;
     fs_sha256 := fun _ => inl "No such file or directory";
     fs_abspath := id;
     fs_normcase := id;
     fs_normpath := id;
     fs_join := Sample.join;
     fs_relpath := Sample.relpath;
     fs_basename := Sample.basename;
     mask_path_for_output := fun p => mask_partial p 3 4 |}.

Definition cfg_two_drives : Config :=
  {| S3_BUCKET := "bucket"; KMS_KEY_ARN := "key";
     SOURCE_DRIVES := [("/mnt/main", "MAIN"); ("/mnt/usb", "USB")] |}.

End Sample2.

(** * Properties *)

(** ** Masking, on two keys *)

Example mask_s3_key_deep :
  mask_s3_key "2026/01/02/MAIN/Pictures/holiday.jpg"
  = "2026/01/02/MAIN/Pictures/hol....jpg".
Proof. reflexivity. Qed.

Example mask_s3_key_short : mask_s3_key "a/b.txt" = ".../*****".
Proof. reflexivity. Qed.

(** ** The first-occurrence deduplication *)

Section Fromkeys.
Context {A : Type} `{EqDecision A}.

Lemma fromkeys_from_elem (seen l : list A) (x : A) :
  x ∈ fromkeys_from seen l ↔ x ∈ l ∧ x ∉ seen.
Proof.
  revert seen; induction l as [|y t IH]; intros seen; simpl.
  - set_solver.
  - case_decide as Hy.
    + rewrite IH. set_solver.
    + rewrite elem_of_cons, IH. split.
      * intros [-> | [Ht Hs]]; [set_solver|].
        split; [set_solver|]. set_solver.
      * intros [Hx Hs]. apply elem_of_cons in Hx as [-> | Hx]; [by left|].
        destruct (decide (x = y)) as [-> | Hne]; [by left|].
        right. split; [done|]. set_solver.
Qed.



Lemma dict_fromkeys_elem (l : list A) (x : A) :
  x ∈ dict_fromkeys l ↔ x ∈ l.
Proof. unfold dict_fromkeys. rewrite fromkeys_from_elem. set_solver. Qed.



End Fromkeys.

(** ** The loop body, case by case *)

Section EngineFacts.
Context (cfg : Config) (fs : FS) (env : Env).
Context (dry_run : bool) (persisted : gmap string string).
Context (start_time : Q) (total_files : nat).

Local Abbreviation step := (process_file cfg fs env dry_run persisted
                          start_time total_files).
Local Abbreviation loop := (process_loop cfg fs env dry_run persisted
                          start_time total_files).
Local Abbreviation key_of := (s3_key_of cfg fs env).
Local Abbreviation mask := (mask_path_for_output fs).
Local Abbreviation StepCase := (StepCase cfg fs env dry_run persisted
                              start_time total_files).
Local Arguments process_file : simpl never.

Lemma process_file_case idx abs_path drive_name st :
  StepCase idx abs_path drive_name st (step idx (abs_path, drive_name) st).
Proof.
  unfold process_file.
  destruct (decide (abs_path ∈ seen_paths st)) as [Hs|Hs];
    [by apply AlreadySeen|].
  destruct (fs_sha256 fs abs_path) as [e|h] eqn:Hh;
    [by apply HashFailed|].
  change (content_hash_to_s3key (mark_seen abs_path st))
    with (content_hash_to_s3key st).
  destruct (content_hash_to_s3key st !! h) as [k|] eqn:Hk;
    [by eapply DuplicateContent|].
  destruct (decide (persisted !! abs_path = Some h)) as [Hp|Hp];
    [by eapply Unchanged|].
  destruct dry_run eqn:Hd; [by eapply DryUploaded|].
  destruct (env_upload env idx abs_path (key_of idx abs_path drive_name))
    as [e|] eqn:Hu.
  - by eapply UploadFailed.
  - by eapply Uploaded.
Qed.

Ltac step_cases idx p d st :=
  destruct (process_file_case idx p d st); simpl in *.

(** *** What one candidate can change *)

Lemma step_seen_paths idx p d st :
  seen_paths (step idx (p, d) st) = {[p]} ∪ seen_paths st.
Proof. step_cases idx p d st; set_solver. Qed.

Lemma step_updated_other idx p d st q :
  q ≠ p ->
  updated_hashes (step idx (p, d) st) !! q = updated_hashes st !! q.
Proof.
  intros Hne. step_cases idx p d st; try done;
    by rewrite lookup_insert_ne.
Qed.

Lemma step_updated_seen idx p d st :
  p ∈ seen_paths st -> step idx (p, d) st = st.
Proof. intros Hs. unfold process_file. by rewrite decide_True. Qed.


Lemma step_effects idx p d st :
  exists puts, effects (step idx (p, d) st) = effects st ++ puts
               /\ Forall is_put puts
               /\ (dry_run = true -> puts = []).
Proof.
  step_cases idx p d st;
    try (exists []; rewrite app_nil_r; by repeat split);
    (eexists [_]; repeat split; [by repeat constructor | congruence]).
Qed.

Lemma step_man_errors idx p d st :
  exists es, man_errors (step idx (p, d) st) = man_errors st ++ es.
Proof.
  step_cases idx p d st;
    try (exists []; by rewrite app_nil_r); by eexists [_].
Qed.

(** *** The same facts for the whole loop *)



Lemma loop_effects cands idx st :
  exists puts, effects (loop idx cands st) = effects st ++ puts
               /\ Forall is_put puts
               /\ (dry_run = true -> puts = []).
Proof.
  revert idx st; induction cands as [|[p d] rest IH]; intros idx st;
    simpl.
  - exists []. rewrite app_nil_r. by repeat split.
  - destruct (env_interrupted env idx).
    + exists []. rewrite app_nil_r. by repeat split.
    + destruct (IH (S idx) (step idx (p, d) st)) as (l2 & -> & F2 & D2).
      destruct (step_effects idx p d st) as (l1 & -> & F1 & D1).
      exists (l1 ++ l2). rewrite <- app_assoc. repeat split.
      * by apply Forall_app.
      * intros Hd. by rewrite D1, D2.
Qed.

Lemma loop_man_errors cands idx st :
  exists es, man_errors (loop idx cands st) = man_errors st ++ es.
Proof.
  revert idx st; induction cands as [|[p d] rest IH]; intros idx st;
    simpl.
  - exists []. by rewrite app_nil_r.
  - destruct (env_interrupted env idx).
    + exists []. by rewrite app_nil_r.
    + destruct (IH (S idx) (step idx (p, d) st)) as (l2 & ->).
      destruct (step_man_errors idx p d st) as (l1 & ->).
      exists (l1 ++ l2). by rewrite <- app_assoc.
Qed.

End EngineFacts.


(** ** The run as a whole: ledger, effects, report *)

Lemma dry_run_has_no_effects cfg fs env disk :
  run_effects (backup_run cfg fs env true disk) = [].
Proof.
  unfold backup_run, bucket_estimate. cbn.
  match goal with
  | |- context [effects (process_loop ?c ?f ?e true ?p ?s ?t ?i ?l ?st)] =>
      destruct (loop_effects c f e true p s t l i st) as (puts & -> & _ & Hd)
  end.
  rewrite Hd by done. reflexivity.
Qed.



(** C3.  A candidate whose fresh hash equals the hash the loaded ledger
    holds for that very path, and whose content was not uploaded earlier
    in the run, is recorded as unchanged; the working ledger is left as
    it was and no call to the remote store is made (nothing else is
    recorded for the file either). *)
Theorem unchanged_file_is_skipped cfg fs env dry_run persisted
    start_time total_files idx abs_path drive_name file_hash st :
  abs_path ∉ seen_paths st ->
  fs_sha256 fs abs_path = inr file_hash ->
  content_hash_to_s3key st !! file_hash = None ->
  persisted !! abs_path = Some file_hash ->
  let st' := process_file cfg fs env dry_run persisted start_time
               total_files idx (abs_path, drive_name) st in
  man_unchanged st'
    = man_unchanged st ++ [mask_path_for_output fs abs_path]
  /\ updated_hashes st' = updated_hashes st
  /\ effects st' = effects st
  /\ man_uploaded st' = man_uploaded st
  /\ man_skipped_duplicates st' = man_skipped_duplicates st
  /\ man_errors st' = man_errors st.
Proof.
  intros Hs Hh Hk Hp st'. subst st'.
  destruct (process_file_case cfg fs env dry_run persisted start_time
              total_files idx abs_path drive_name st);
    try congruence; try done.
Qed.


(** C10.  A dry run never asks the remote store for a listing: its
    report gives the bucket size as "unknown" and the monthly cost as
    0, whatever the candidates are. *)
Theorem dry_run_never_lists_the_bucket cfg fs env disk :
  let r := backup_run cfg fs env true disk in
  rep_bucket_size_readable (run_report r) = "unknown"
  /\ rep_estimated_monthly_cost_usd (run_report r) = 0%Q
  /\ forall bucket, ListObjects bucket ∉ run_effects r.
Proof.
  cbv zeta. rewrite dry_run_has_no_effects.
  repeat split; [set_solver].
Qed.


Lemma unchanged_file_is_skipped_witness :
  let st := initial_state Sample.ledger_one ["MAIN"] in
  let st' := process_file Sample.cfg Sample.fs_one Sample.quiet false
               Sample.ledger_one 0 1 1 ("/Pictures/a.jpg", "MAIN") st in
  man_unchanged st' = man_unchanged st ++ ["/Pi....jpg"]
  /\ updated_hashes st' = updated_hashes st
  /\ effects st' = effects st
  /\ man_uploaded st' = man_uploaded st
  /\ man_skipped_duplicates st' = man_skipped_duplicates st
  /\ man_errors st' = man_errors st.
Proof.
  apply (unchanged_file_is_skipped Sample.cfg Sample.fs_one Sample.quiet
           false Sample.ledger_one 0 1 1 "/Pictures/a.jpg" "MAIN" "H1");
    [ vm_compute; set_solver | reflexivity | reflexivity | reflexivity ].
Defined.


(** ** Exit code *)

Lemma exit_code_values report :
  exit_code report = 0%Z \/ exit_code report = 2%Z.
Proof. unfold exit_code. destruct (_ || _); auto. Qed.

(** C8, as the claim states it, fails: a run without interruption and
    without any per-file error exits with 2 when the ledger save
    fails, because the save error is appended to the same error list. *)
Lemma exit_code_counterexample :
  let report := main_report Sample.cfg Sample.fs_one Sample.save_fails
                  false NoFile in
  rep_interrupted report = false
  /\ file_errors (rep_errors report) = []
  /\ rep_errors report = [SaveHashDbError "No space left on device"]
  /\ main Sample.cfg Sample.fs_one Sample.save_fails false NoFile = 2%Z.
Proof. vm_compute. done. Qed.

(** C8, amended.  The exit code is 0 exactly when the report holds no
    interruption and no error entry of any kind (a file's failure, a
    failed ledger save or a fatal exception); it is 2 otherwise. *)
Theorem exit_code_zero_iff_clean_report cfg fs env dry_run disk :
  let report := main_report cfg fs env dry_run disk in
  (main cfg fs env dry_run disk = 0%Z
   <-> rep_interrupted report = false /\ rep_errors report = [])
  /\ (main cfg fs env dry_run disk = 0%Z
      \/ main cfg fs env dry_run disk = 2%Z).
Proof.
  intros report. unfold main. fold report. split.
  - unfold exit_code, has_errors.
    destruct (rep_interrupted report), (rep_errors report);
      cbn; split; try done; intros [? ?]; done.
  - apply exit_code_values.
Qed.

(** ** Progress samples *)

(** C6 at three inputs.  A file that is skipped as unchanged and a file
    whose hashing fails are counted as processed but leave no progress
    sample; a file whose upload fails does leave one. *)
Theorem progress_sample_missing_after_skip :
  (let r := backup_run Sample.cfg Sample.fs_one Sample.quiet false
              (Stored Sample.ledger_one) in
   rm_unchanged (run_manifest r) = ["/Pi....jpg"]
   /\ rm_files_processed_count (run_manifest r) = 1%nat
   /\ rm_progress_samples (run_manifest r) = [])
  /\ (let r := backup_run Sample.cfg Sample.fs_only_locked Sample.quiet
                 false NoFile in
      rm_errors (run_manifest r)
        = [FileError "/Pi....bin" "Permission denied"]
      /\ rm_files_processed_count (run_manifest r) = 1%nat
      /\ rm_progress_samples (run_manifest r) = [])
  /\ (let r := backup_run Sample.cfg Sample.fs_one Sample.store_down
                 false NoFile in
      rm_errors (run_manifest r)
        = [FileError "/Pi....jpg" "EndpointConnectionError"]
      /\ rm_files_processed_count (run_manifest r) = 1%nat
      /\ length (rm_progress_samples (run_manifest r)) = 1%nat).
Proof. vm_compute. done. Qed.

(** ** Scanner *)

#[global] Instance str_le_total : Total str_le.
Proof. intros a b. apply String.leb_total. Qed.



Lemma sorted_set_elem (l : list string) (x : string) :
  x ∈ sorted_set l <-> x ∈ l.
Proof.
  unfold sorted_set. rewrite merge_sort_Permutation.
  apply elem_of_remove_dups.
Qed.



(** ** What [backup_run] returns, in terms of the final loop state *)

Lemma backup_run_fields cfg fs env dry_run disk :
  let r := backup_run cfg fs env dry_run disk in
  let st := run_loop_state cfg fs env dry_run disk in
  run_updated_hashes r = updated_hashes st
  /\ rm_uploaded (run_manifest r) = man_uploaded st
  /\ rm_skipped_duplicates (run_manifest r) = man_skipped_duplicates st
  /\ rm_unchanged (run_manifest r) = man_unchanged st
  /\ rm_progress_samples (run_manifest r) = man_progress_samples st
  /\ rm_files_processed_count (run_manifest r) = processed_files st
  /\ file_errors (rm_errors (run_manifest r)) = file_errors (man_errors st)
  /\ rep_errors (run_report r) = rm_errors (run_manifest r)
  /\ (exists tail, rm_errors (run_manifest r) = man_errors st ++ tail).
Proof.
  unfold backup_run, run_loop_state, save_hash_db_atomic, bucket_estimate.
  destruct dry_run, (env_save_error env), (env_listing env); cbn;
    unfold file_errors; rewrite ?List.filter_app, ?app_nil_r; cbn;
    rewrite ?app_nil_r; repeat split; eauto using app_nil_r.
Qed.

(** ** Counting outcomes and failures *)

Section EngineCounts.
Context (cfg : Config) (fs : FS) (env : Env).
Context (dry_run : bool) (persisted : gmap string string).
Context (start_time : Q) (total_files : nat).

Local Abbreviation step := (process_file cfg fs env dry_run persisted
                          start_time total_files).
Local Abbreviation loop := (process_loop cfg fs env dry_run persisted
                          start_time total_files).
Local Abbreviation key_of := (s3_key_of cfg fs env).
Local Abbreviation mask := (mask_path_for_output fs).
Local Arguments process_file : simpl never.

Local Abbreviation transfers_succeed := (transfers_succeed env dry_run).
Local Abbreviation never_interrupted := (never_interrupted env).
Local Abbreviation readable := (readable fs).
Local Abbreviation hash_failure := (hash_failure fs).

Ltac cases_of idx p d st :=
  destruct (process_file_case cfg fs env dry_run persisted start_time
              total_files idx p d st); simpl in *.

Ltac same_result :=
  repeat match goal with
         | H1 : ?x = ?a, H2 : ?x = ?b |- _ => rewrite H1 in H2; simplify_eq
         end.

Lemma step_failed_hash idx p d st e :
  p ∉ seen_paths st ->
  fs_sha256 fs p = inl e ->
  man_errors (step idx (p, d) st) = man_errors st ++ [FileError (mask p) e]
  /\ updated_hashes (step idx (p, d) st) = updated_hashes st
  /\ outcomes (step idx (p, d) st) = outcomes st
  /\ effects (step idx (p, d) st) = effects st.
Proof.
  intros Hs He. cases_of idx p d st; try congruence; try done.
  unfold outcomes; simpl. by same_result.
Qed.

Lemma step_failed_upload idx p d st h e :
  p ∉ seen_paths st ->
  fs_sha256 fs p = inr h ->
  content_hash_to_s3key st !! h = None ->
  persisted !! p ≠ Some h ->
  dry_run = false ->
  env_upload env idx p (key_of idx p d) = Some e ->
  man_errors (step idx (p, d) st) = man_errors st ++ [FileError (mask p) e]
  /\ updated_hashes (step idx (p, d) st) = updated_hashes st
  /\ outcomes (step idx (p, d) st) = outcomes st
  /\ effects (step idx (p, d) st)
     = effects st ++ [PutObject p (S3_BUCKET cfg) (key_of idx p d)].
Proof.
  intros Hs Hh Hk Hp Hd Hu. cases_of idx p d st; try congruence; try done.
  unfold outcomes; simpl. by same_result.
Qed.

Lemma step_processed idx p d st :
  p ∉ seen_paths st ->
  processed_files (step idx (p, d) st) = S (processed_files st).
Proof. intros Hs. cases_of idx p d st; done. Qed.

Lemma step_readable_counts idx p d st h :
  transfers_succeed ->
  p ∉ seen_paths st ->
  fs_sha256 fs p = inr h ->
  outcomes (step idx (p, d) st) = S (outcomes st)
  /\ man_errors (step idx (p, d) st) = man_errors st.
Proof.
  intros Ht Hs Hh. unfold outcomes.
  cases_of idx p d st; try congruence; try done;
    rewrite ?length_app; simpl; try (split; [lia|done]).
  destruct Ht as [Ht|Ht]; congruence.
Qed.

(** A path that cannot be hashed never changes the ledger. *)
Lemma loop_unreadable_ledger cands idx st p e :
  fs_sha256 fs p = inl e ->
  updated_hashes (loop idx cands st) !! p = updated_hashes st !! p.
Proof.
  intros He. revert idx st.
  induction cands as [|[q d] rest IH]; intros idx st; simpl; [done|].
  destruct (env_interrupted env idx); [done|].
  rewrite IH. destruct (decide (q = p)) as [->|Hne].
  - cases_of idx p d st; try congruence; done.
  - by apply step_updated_other.
Qed.

Lemma loop_counts cands idx st :
  never_interrupted ->
  transfers_succeed ->
  NoDup cands.*1 ->
  (forall p, p ∈ cands.*1 -> p ∉ seen_paths st) ->
  outcomes (loop idx cands st)
    = (outcomes st + length (List.filter readable cands))%nat
  /\ man_errors (loop idx cands st)
     = man_errors st ++ List.flat_map hash_failure cands
  /\ processed_files (loop idx cands st)
     = (processed_files st + length cands)%nat.
Proof.
  intros Hi Ht. revert idx st.
  induction cands as [|[p d] rest IH]; intros idx st Hnd Hseen; simpl.
  - rewrite app_nil_r. repeat split; lia.
  - rewrite Hi. apply NoDup_cons in Hnd as [Hp Hnd].
    assert (Hps : p ∉ seen_paths st) by (apply Hseen; set_solver).
    destruct (IH (S idx) (step idx (p, d) st) Hnd) as (IH1 & IH2 & IH3).
    { intros q Hq. rewrite step_seen_paths.
      assert (q ≠ p) by (intros ->; done).
      assert (q ∉ seen_paths st) by (apply Hseen; set_solver).
      set_solver. }
    rewrite IH1, IH2, IH3, step_processed by done.
    unfold readable at 2, hash_failure at 2. simpl.
    destruct (fs_sha256 fs p) as [e|h] eqn:Hh.
    + destruct (step_failed_hash idx p d st e Hps Hh) as (-> & _ & -> & _).
      rewrite <- app_assoc. simpl. repeat split; lia.
    + destruct (step_readable_counts idx p d st h Ht Hps Hh) as (-> & ->).
      simpl. repeat split; lia.
Qed.

End EngineCounts.

(** ** Partial failure *)

Lemma all_readable_filter fs (l : list (string * string)) :
  (forall c, c ∈ l -> exists h, fs_sha256 fs c.1 = inr h) ->
  List.filter (readable fs) l = l
  /\ List.flat_map (hash_failure fs) l = [].
Proof.
  induction l as [|c l IH]; intros Hall; simpl; [done|].
  destruct (Hall c) as [h Hh]; [set_solver|].
  destruct IH as [IH1 IH2]; [intros; apply Hall; set_solver|].
  unfold readable at 1, hash_failure at 1. rewrite Hh. simpl.
  by rewrite IH1, IH2.
Qed.

(** C4, as the claim states it, fails in its second half.  Three
    candidates, exactly one of them unreadable: when the store rejects
    every put the run records three failures and no other outcome;
    when the signal arrives during the first file the run stops after
    one outcome. *)
Lemma partial_failure_counterexample :
  candidates_of_run Sample.cfg Sample.fs_locked
    = [ ("/Pictures/a.jpg", "MAIN"); ("/Pictures/locked.bin", "MAIN");
        ("/Pictures/c.txt", "MAIN") ]
  /\ List.filter (fun c => negb (readable Sample.fs_locked c))
       (candidates_of_run Sample.cfg Sample.fs_locked)
     = [ ("/Pictures/locked.bin", "MAIN") ]
  /\ (let r := backup_run Sample.cfg Sample.fs_locked Sample.store_down
                 false NoFile in
      rm_outcomes (run_manifest r) = 0%nat
      /\ length (file_errors (rm_errors (run_manifest r))) = 3%nat)
  /\ (let r := backup_run Sample.cfg Sample.fs_locked
                 Sample.interrupted_after_first true NoFile in
      rm_outcomes (run_manifest r) = 1%nat
      /\ rm_files_processed_count (run_manifest r) = 1%nat).
Proof. vm_compute. done. Qed.

(** C4, amended.  A candidate whose hashing or upload fails gets one
    error entry with its path and the reason, leaves the working ledger
    and the other outcome lists as they were, and the loop goes on with
    the next candidate.  In a run that is never interrupted and in
    which every attempted transfer succeeds (a dry run, or a store that
    accepts every put), with pairwise distinct candidate paths of which
    exactly one cannot be read, all N candidates are processed, N-1
    outcomes other than a failure are recorded, the only failure is that
    file's, and that path's ledger entry is what was loaded. *)
Theorem failure_is_contained cfg fs env dry_run disk :
  (forall persisted start_time total_files idx abs_path drive_name st e,
     abs_path ∉ seen_paths st ->
     (fs_sha256 fs abs_path = inl e
      \/ exists h,
           fs_sha256 fs abs_path = inr h
           /\ content_hash_to_s3key st !! h = None
           /\ persisted !! abs_path ≠ Some h
           /\ dry_run = false
           /\ env_upload env idx abs_path
                (s3_key_of cfg fs env idx abs_path drive_name) = Some e) ->
     let st' := process_file cfg fs env dry_run persisted start_time
                  total_files idx (abs_path, drive_name) st in
     man_errors st'
       = man_errors st ++ [FileError (mask_path_for_output fs abs_path) e]
     /\ updated_hashes st' = updated_hashes st
     /\ outcomes st' = outcomes st
     /\ forall rest,
          env_interrupted env idx = false ->
          process_loop cfg fs env dry_run persisted start_time total_files
            idx ((abs_path, drive_name) :: rest) st
          = process_loop cfg fs env dry_run persisted start_time
              total_files (S idx) rest st')
  /\ (forall pre p d post e,
        candidates_of_run cfg fs = pre ++ (p, d) :: post ->
        NoDup (candidates_of_run cfg fs).*1 ->
        fs_sha256 fs p = inl e ->
        (forall c, c ∈ pre ++ post -> exists h, fs_sha256 fs c.1 = inr h) ->
        never_interrupted env ->
        transfers_succeed env dry_run ->
        let r := backup_run cfg fs env dry_run disk in
        rm_files_processed_count (run_manifest r)
          = length (candidates_of_run cfg fs)
        /\ rm_outcomes (run_manifest r)
           = (length (candidates_of_run cfg fs) - 1)%nat
        /\ file_errors (rm_errors (run_manifest r))
           = [FileError (mask_path_for_output fs p) e]
        /\ run_updated_hashes r !! p = load_hash_db disk !! p).
Proof.
  split.
  - intros persisted start_time total_files idx abs_path drive_name st e
      Hs Hfail st'. subst st'.
    assert (Hgo : forall rest,
      env_interrupted env idx = false ->
      process_loop cfg fs env dry_run persisted start_time total_files
        idx ((abs_path, drive_name) :: rest) st
      = process_loop cfg fs env dry_run persisted start_time total_files
          (S idx) rest
          (process_file cfg fs env dry_run persisted start_time
             total_files idx (abs_path, drive_name) st)).
    { intros rest Hi. simpl. by rewrite Hi. }
    destruct Hfail as [He | (h & Hh & Hk & Hp & Hd & Hu)].
    + destruct (step_failed_hash cfg fs env dry_run persisted start_time
                  total_files idx abs_path drive_name st e Hs He)
        as (? & ? & ? & _).
      by repeat split.
    + destruct (step_failed_upload cfg fs env dry_run persisted
                  start_time total_files idx abs_path drive_name st h e
                  Hs Hh Hk Hp Hd Hu) as (? & ? & ? & _).
      by repeat split.
  - intros pre p d post e Hc Hnd He Hall Hi Ht r.
    destruct (backup_run_fields cfg fs env dry_run disk)
      as (Hu & Hup & Hdup & Hun & _ & Hproc & Herr & _).
    fold r in Hu, Hup, Hdup, Hun, Hproc, Herr.
    destruct (loop_counts cfg fs env dry_run (load_hash_db disk)
                (env_time_start env) (length (candidates_of_run cfg fs))
                (candidates_of_run cfg fs) 1
                (initial_state (load_hash_db disk) (drive_labels cfg))
                Hi Ht Hnd) as (Hout & Hers & Hcount).
    { intros q _. simpl. set_solver. }
    fold (run_loop_state cfg fs env dry_run disk) in Hout, Hers, Hcount.
    assert (Hpre : forall c, c ∈ pre -> exists h, fs_sha256 fs c.1 = inr h)
      by (intros c Hin; apply Hall; set_solver).
    assert (Hpost : forall c, c ∈ post -> exists h, fs_sha256 fs c.1 = inr h)
      by (intros c Hin; apply Hall; set_solver).
    destruct (all_readable_filter fs pre Hpre) as [Fpre Epre].
    destruct (all_readable_filter fs post Hpost) as [Fpost Epost].
    rewrite Hc in Hout, Hers.
    rewrite List.filter_app in Hout. simpl in Hout.
    rewrite List.flat_map_app in Hers. simpl in Hers.
    unfold readable at 2 in Hout. unfold hash_failure at 2 in Hers.
    simpl in Hout, Hers. rewrite He in Hout, Hers.
    rewrite Fpre, Fpost in Hout. rewrite Epre, Epost in Hers.
    simpl in Hers.
    repeat split.
    + rewrite Hproc, Hcount. simpl. lia.
    + unfold rm_outcomes. rewrite Hup, Hdup, Hun.
      fold (outcomes (run_loop_state cfg fs env dry_run disk)).
      rewrite Hout, Hc, !length_app. unfold outcomes. simpl. lia.
    + rewrite Herr, Hers. reflexivity.
    + rewrite Hu. unfold run_loop_state.
      by rewrite (loop_unreadable_ledger cfg fs env dry_run _ _ _ _ _ _ p e).
Qed.

Lemma failure_is_contained_witness :
  let r := backup_run Sample.cfg Sample.fs_locked Sample.quiet true NoFile in
  rm_files_processed_count (run_manifest r)
    = length (candidates_of_run Sample.cfg Sample.fs_locked)
  /\ rm_outcomes (run_manifest r)
     = (length (candidates_of_run Sample.cfg Sample.fs_locked) - 1)%nat
  /\ file_errors (rm_errors (run_manifest r))
     = [FileError "/Pi....bin" "Permission denied"]
  /\ run_updated_hashes r !! "/Pictures/locked.bin"
     = load_hash_db NoFile !! "/Pictures/locked.bin".
Proof.
  apply (proj2 (failure_is_contained Sample.cfg Sample.fs_locked
                  Sample.quiet true NoFile)
           [("/Pictures/a.jpg", "MAIN")] "/Pictures/locked.bin" "MAIN"
           [("/Pictures/c.txt", "MAIN")] "Permission denied").
  - vm_compute; reflexivity.
  - match goal with
    | |- ?P => apply (bool_decide_unpack P); vm_compute; exact I
    end.
  - reflexivity.
  - intros c Hc. apply list_elem_of_In in Hc. simpl in Hc.
    destruct Hc as [<- | [<- | []]]; eexists; reflexivity.
  - intros idx. reflexivity.
  - left. reflexivity.
Defined.

(** ** One content, several paths *)

Section SameContent.
Context (cfg : Config) (fs : FS) (env : Env).
Context (dry_run : bool) (persisted : gmap string string).
Context (start_time : Q) (total_files : nat).
Context (h1 : string).

Local Abbreviation step := (process_file cfg fs env dry_run persisted
                          start_time total_files).
Local Abbreviation loop := (process_loop cfg fs env dry_run persisted
                          start_time total_files).
Local Abbreviation key_of := (s3_key_of cfg fs env).
Local Abbreviation mask := (mask_path_for_output fs).
Local Arguments process_file : simpl never.

Ltac cases_of idx p d st :=
  destruct (process_file_case cfg fs env dry_run persisted start_time
              total_files idx p d st); simpl in *.

Ltac same_hash :=
  repeat match goal with
         | H : fs_sha256 fs ?p = inr ?a, H' : fs_sha256 fs ?p = inr h1 |- _ =>
             tryif constr_eq a h1 then fail
             else (assert (a = h1) by congruence; subst a)
         end.

Lemma uploads_of_hash_snoc_ne (l : list UploadEntry) (e : UploadEntry) :
  ue_hash e ≠ h1 ->
  uploads_of_hash h1 (l ++ [e]) = uploads_of_hash h1 l.
Proof.
  intros Hne. unfold uploads_of_hash. rewrite List.filter_app. simpl.
  rewrite bool_decide_eq_false_2 by done. apply app_nil_r.
Qed.

Lemma uploads_of_hash_snoc_eq (l : list UploadEntry) (e : UploadEntry) :
  ue_hash e = h1 ->
  uploads_of_hash h1 (l ++ [e]) = uploads_of_hash h1 l ++ [e].
Proof.
  intros He. unfold uploads_of_hash. rewrite List.filter_app. simpl.
  by rewrite bool_decide_eq_true_2.
Qed.

(** Before the first copy: nothing is recorded for [h1]. *)
Lemma step_other_hash idx p d st :
  fs_sha256 fs p ≠ inr h1 ->
  content_hash_to_s3key st !! h1 = None ->
  uploads_of_hash h1 (man_uploaded st) = [] ->
  content_hash_to_s3key (step idx (p, d) st) !! h1 = None
  /\ uploads_of_hash h1 (man_uploaded (step idx (p, d) st)) = [].
Proof.
  intros Hne Hk Hu.
  cases_of idx p d st; try done;
    (assert (file_hash ≠ h1) by congruence);
    rewrite lookup_insert_ne, uploads_of_hash_snoc_ne by done; done.
Qed.

Lemma loop_other_hash cands idx st :
  (forall c, c ∈ cands -> fs_sha256 fs c.1 ≠ inr h1) ->
  content_hash_to_s3key st !! h1 = None ->
  uploads_of_hash h1 (man_uploaded st) = [] ->
  content_hash_to_s3key (loop idx cands st) !! h1 = None
  /\ uploads_of_hash h1 (man_uploaded (loop idx cands st)) = [].
Proof.
  revert idx st. induction cands as [|[p d] rest IH];
    intros idx st Hall Hk Hu; simpl; [done|].
  destruct (env_interrupted env idx); [done|].
  destruct (step_other_hash idx p d st) as [Hk' Hu']; try done.
  { apply (Hall (p, d)). set_solver. }
  apply IH; try done. intros c Hc. apply Hall. set_solver.
Qed.

Lemma loop_seen_paths cands idx st q :
  q ∈ seen_paths (loop idx cands st) -> q ∈ seen_paths st \/ q ∈ cands.*1.
Proof.
  revert idx st. induction cands as [|[p d] rest IH]; intros idx st Hq;
    simpl in *; [by left|].
  destruct (env_interrupted env idx); [by left|].
  apply IH in Hq as [Hq|Hq]; [|set_solver].
  rewrite step_seen_paths in Hq. set_solver.
Qed.

(** The first copy. *)
Lemma step_first_copy idx p d st :
  p ∉ seen_paths st ->
  fs_sha256 fs p = inr h1 ->
  content_hash_to_s3key st !! h1 = None ->
  uploads_of_hash h1 (man_uploaded st) = [] ->
  persisted !! p ≠ Some h1 ->
  (dry_run = true \/ env_upload env idx p (key_of idx p d) = None) ->
  first_copy_uploaded h1 p (key_of idx p d)
    (upload_entry fs dry_run p (key_of idx p d) h1) (step idx (p, d) st).
Proof.
  intros Hs Hh Hk Hu Hp Hok. unfold first_copy_uploaded, upload_entry.
  cases_of idx p d st; try congruence; same_hash; try done.
  - rewrite !lookup_insert_eq, uploads_of_hash_snoc_eq, Hu by done.
    repeat split; set_solver.
  - rewrite !lookup_insert_eq, uploads_of_hash_snoc_eq, Hu by done.
    repeat split; set_solver.
  - destruct Hok; congruence.
Qed.

Context (pA kA : string) (eA : UploadEntry).

Local Abbreviation first_done := (first_copy_uploaded h1 pA kA eA).
Local Abbreviation later_done pB := (later_copy_skipped fs h1 pB kA).

Lemma step_keeps_first idx p d st :
  first_done st -> first_done (step idx (p, d) st).
Proof.
  intros (Hk & Hu & Hs & Hl). unfold first_copy_uploaded.
  cases_of idx p d st; try done;
    try (assert (p ≠ pA) by (intros ->; done));
    try (assert (file_hash ≠ h1) by congruence);
    rewrite ?lookup_insert_ne, ?uploads_of_hash_snoc_ne by done;
    repeat split; try done; set_solver.
Qed.

Lemma step_later_copy idx p d st :
  first_done st ->
  p ∉ seen_paths st ->
  fs_sha256 fs p = inr h1 ->
  later_done p (step idx (p, d) st).
Proof.
  intros (Hk & Hu & Hs & Hl) Hp Hh. unfold later_copy_skipped.
  cases_of idx p d st; try congruence; same_hash; try done.
  rewrite lookup_insert_eq. repeat split; set_solver.
Qed.

Lemma step_keeps_later idx p d st pB :
  later_done pB st -> later_done pB (step idx (p, d) st).
Proof.
  intros (Hd & Hl & Hs). unfold later_copy_skipped.
  cases_of idx p d st; try done;
    try (assert (p ≠ pB) by (intros ->; done));
    rewrite ?lookup_insert_ne by done;
    repeat split; try done; set_solver.
Qed.

Lemma loop_later_copy cands idx st pB :
  never_interrupted env ->
  fs_sha256 fs pB = inr h1 ->
  first_done st ->
  later_done pB st \/ ((pB ∉ seen_paths st) /\ pB ∈ cands.*1) ->
  first_done (loop idx cands st) /\ later_done pB (loop idx cands st).
Proof.
  intros Hi Hh. revert idx st.
  induction cands as [|[p d] rest IH]; intros idx st Hf Hb; simpl.
  - destruct Hb as [Hb | [_ Hb]]; [done | set_solver].
  - rewrite Hi. apply IH; [by apply step_keeps_first|].
    destruct Hb as [Hb | [Hs Hb]]; [left; by apply step_keeps_later|].
    destruct (decide (p = pB)) as [->|Hne].
    + left. by apply step_later_copy.
    + right. rewrite step_seen_paths. set_solver.
Qed.

Lemma loop_app l1 l2 idx st :
  never_interrupted env ->
  loop idx (l1 ++ l2) st = loop (idx + length l1) l2 (loop idx l1 st).
Proof.
  intros Hi. revert idx st. induction l1 as [|c l1 IH]; intros idx st;
    simpl.
  - by rewrite Nat.add_0_r.
  - rewrite Hi, IH. f_equal. lia.
Qed.

End SameContent.

(** C1, as the claim states it, fails.  Two paths with the same bytes
    and an empty ledger: when the store rejects the put of the first
    path, that path is recorded as failed and so is the second, which
    is tried as an upload of its own; when the signal arrives during
    the first file, the second path is never visited and gets neither
    an outcome nor a ledger entry. *)
Lemma same_content_counterexample :
  candidates_of_run Sample.cfg Sample.fs_two_copies
    = [ ("/Pictures/a.jpg", "MAIN"); ("/Pictures/b.jpg", "MAIN") ]
  /\ (let r := backup_run Sample.cfg Sample.fs_two_copies
                 Sample.store_down false NoFile in
      rm_uploaded (run_manifest r) = []
      /\ rm_skipped_duplicates (run_manifest r) = []
      /\ rm_errors (run_manifest r)
         = [ FileError "/Pi....jpg" "EndpointConnectionError";
             FileError "/Pi....jpg" "EndpointConnectionError" ]
      /\ run_updated_hashes r !! "/Pictures/a.jpg" = None
      /\ run_updated_hashes r !! "/Pictures/b.jpg" = None)
  /\ (let r := backup_run Sample.cfg Sample.fs_two_copies
                 Sample.interrupted_after_first true NoFile in
      length (rm_uploaded (run_manifest r)) = 1%nat
      /\ rm_skipped_duplicates (run_manifest r) = []
      /\ run_updated_hashes r !! "/Pictures/b.jpg" = None).
Proof. vm_compute. done. Qed.

(** C1, amended.  In a run that starts from an empty ledger, is never
    interrupted, and in which the transfer of the first path with
    content hash h1 succeeds (always so in a dry run), exactly one
    upload is recorded for h1, namely that first path's, under its
    remote key; every other path with the same hash that comes later in
    the candidate list is recorded as a duplicate skip against that
    key; and the ledger at the end maps both paths to h1. *)
Theorem same_content_is_uploaded_once cfg fs env dry_run disk
    pre pA dA rest pB h1 :
  load_hash_db disk = ∅ ->
  candidates_of_run cfg fs = pre ++ (pA, dA) :: rest ->
  (forall c, c ∈ pre -> fs_sha256 fs c.1 ≠ inr h1) ->
  fs_sha256 fs pA = inr h1 ->
  pB ∈ rest.*1 ->
  pB ≠ pA ->
  fs_sha256 fs pB = inr h1 ->
  never_interrupted env ->
  (dry_run = true
   \/ env_upload env (S (length pre)) pA
        (s3_key_of cfg fs env (S (length pre)) pA dA) = None) ->
  let kA := s3_key_of cfg fs env (S (length pre)) pA dA in
  let r := backup_run cfg fs env dry_run disk in
  uploads_of_hash h1 (rm_uploaded (run_manifest r))
    = [upload_entry fs dry_run pA kA h1]
  /\ (mask_path_for_output fs pB, mask_s3_key kA)
       ∈ rm_skipped_duplicates (run_manifest r)
  /\ run_updated_hashes r !! pA = Some h1
  /\ run_updated_hashes r !! pB = Some h1.
Proof.
  intros Hempty Hc Hpre HA HB Hne HhB Hi Hok kA r.
  destruct (backup_run_fields cfg fs env dry_run disk)
    as (Hu & Hup & Hdup & _).
  fold r in Hu, Hup, Hdup. rewrite Hu, Hup, Hdup.
  unfold run_loop_state. rewrite Hc, Hempty.
  rewrite loop_app by done.
  set (st0 := initial_state ∅ (drive_labels cfg)).
  set (total := length (pre ++ (pA, dA) :: rest)).
  set (st1 := process_loop cfg fs env dry_run ∅ (env_time_start env)
                total 1 pre st0).
  change (1 + length pre)%nat with (S (length pre)).
  cbn [process_loop]. rewrite Hi.
  set (st2 := process_file cfg fs env dry_run ∅ (env_time_start env)
                total (S (length pre)) (pA, dA) st1).
  destruct (loop_other_hash cfg fs env dry_run ∅ (env_time_start env)
              total h1 pre 1 st0 Hpre) as [Hk1 Hu1]; [done|done|].
  fold st1 in Hk1, Hu1.
  assert (Hunseen : forall q, fs_sha256 fs q = inr h1 -> q ∉ seen_paths st1).
  { intros q Hq Hin.
    apply loop_seen_paths in Hin as [Hin|Hin]; [set_solver|].
    apply list_elem_of_fmap in Hin as (c & -> & Hin).
    by apply (Hpre c). }
  assert (Hfirst : first_copy_uploaded h1 pA kA
                     (upload_entry fs dry_run pA kA h1) st2).
  { apply step_first_copy; auto; by rewrite ?lookup_empty. }
  destruct (loop_later_copy cfg fs env dry_run ∅ (env_time_start env)
              total h1 pA kA (upload_entry fs dry_run pA kA h1) rest
              (S (S (length pre))) st2 pB Hi HhB Hfirst)
    as ((_ & Hup2 & _ & HlA) & (Hd2 & HlB & _)).
  { right. split; [|done]. unfold st2. rewrite step_seen_paths.
    specialize (Hunseen pB HhB). set_solver. }
  done.
Qed.

Lemma same_content_is_uploaded_once_witness :
  let kA := s3_key_of Sample.cfg Sample.fs_two_copies Sample.quiet 1
              "/Pictures/a.jpg" "MAIN" in
  let r := backup_run Sample.cfg Sample.fs_two_copies Sample.quiet false
             NoFile in
  uploads_of_hash "H1" (rm_uploaded (run_manifest r))
    = [upload_entry Sample.fs_two_copies false "/Pictures/a.jpg" kA "H1"]
  /\ (mask_path_for_output Sample.fs_two_copies "/Pictures/b.jpg",
      mask_s3_key kA) ∈ rm_skipped_duplicates (run_manifest r)
  /\ run_updated_hashes r !! "/Pictures/a.jpg" = Some "H1"
  /\ run_updated_hashes r !! "/Pictures/b.jpg" = Some "H1".
Proof.
  apply (same_content_is_uploaded_once Sample.cfg Sample.fs_two_copies
           Sample.quiet false NoFile [] "/Pictures/a.jpg" "MAIN"
           [("/Pictures/b.jpg", "MAIN")] "/Pictures/b.jpg" "H1").
  - reflexivity.
  - vm_compute; reflexivity.
  - intros c Hc. apply list_elem_of_In in Hc. destruct Hc.
  - reflexivity.
  - apply list_elem_of_In. simpl. by left.
  - discriminate.
  - reflexivity.
  - intros idx. reflexivity.
  - right. reflexivity.
Defined.

(** ** Two runs in sequence *)

Section TwoRuns.
Context (cfg : Config) (fs : FS) (env : Env).
Context (dry_run : bool) (persisted : gmap string string).
Context (start_time : Q) (total_files : nat).

Local Abbreviation step := (process_file cfg fs env dry_run persisted
                          start_time total_files).
Local Abbreviation loop := (process_loop cfg fs env dry_run persisted
                          start_time total_files).
Local Arguments process_file : simpl never.

Ltac cases_of idx p d st :=
  destruct (process_file_case cfg fs env dry_run persisted start_time
              total_files idx p d st); simpl in *.

Lemma loop_seen_mono cands idx st q :
  q ∈ seen_paths st -> q ∈ seen_paths (loop idx cands st).
Proof.
  revert idx st. induction cands as [|[p d] rest IH]; intros idx st Hq;
    simpl; [done|].
  destruct (env_interrupted env idx); [done|].
  apply IH. rewrite step_seen_paths. set_solver.
Qed.

Lemma step_ledger_tracks idx p d st :
  man_errors (step idx (p, d) st) = [] ->
  ledger_tracks fs persisted st ->
  ledger_tracks fs persisted (step idx (p, d) st).
Proof.
  intros Herr [Hseen Hother]. unfold ledger_tracks.
  cases_of idx p d st; try done;
    try (by apply app_eq_nil in Herr as [_ ?]).
  - (* duplicate *)
    split; intros q Hq.
    + destruct (decide (q = p)) as [->|Hne].
      * rewrite lookup_insert_eq. eauto.
      * rewrite lookup_insert_ne by done. apply Hseen. set_solver.
    + rewrite lookup_insert_ne by set_solver. apply Hother. set_solver.
  - (* unchanged *)
    split; intros q Hq.
    + destruct (decide (q = p)) as [->|Hne].
      * rewrite Hother by done. eauto.
      * apply Hseen. set_solver.
    + apply Hother. set_solver.
  - (* dry upload *)
    split; intros q Hq.
    + destruct (decide (q = p)) as [->|Hne].
      * rewrite lookup_insert_eq. eauto.
      * rewrite lookup_insert_ne by done. apply Hseen. set_solver.
    + rewrite lookup_insert_ne by set_solver. apply Hother. set_solver.
  - (* upload *)
    split; intros q Hq.
    + destruct (decide (q = p)) as [->|Hne].
      * rewrite lookup_insert_eq. eauto.
      * rewrite lookup_insert_ne by done. apply Hseen. set_solver.
    + rewrite lookup_insert_ne by set_solver. apply Hother. set_solver.
Qed.

Lemma loop_ledger_tracks cands idx st :
  never_interrupted env ->
  man_errors (loop idx cands st) = [] ->
  ledger_tracks fs persisted st ->
  ledger_tracks fs persisted (loop idx cands st)
  /\ forall c, c ∈ cands -> c.1 ∈ seen_paths (loop idx cands st).
Proof.
  intros Hi. revert idx st.
  induction cands as [|[p d] rest IH]; intros idx st Herr Hinv; simpl in *.
  - split; [done|]. intros c Hc. by apply elem_of_nil in Hc.
  - rewrite Hi in *.
    destruct (loop_man_errors cfg fs env dry_run persisted start_time
                total_files rest (S idx) (step idx (p, d) st)) as [es Hes].
    assert (Hstep : man_errors (step idx (p, d) st) = []).
    { rewrite Herr in Hes. symmetry in Hes.
      by apply app_eq_nil in Hes as [? _]. }
    destruct (IH (S idx) (step idx (p, d) st) Herr) as [Hinv' Hall].
    { by apply step_ledger_tracks. }
    split; [done|]. intros c Hc. apply elem_of_cons in Hc as [->|Hc].
    + apply loop_seen_mono. rewrite step_seen_paths. set_solver.
    + by apply Hall.
Qed.

Lemma step_only_unchanged idx p d st h :
  fs_sha256 fs p = inr h ->
  persisted !! p = Some h ->
  only_unchanged st ->
  only_unchanged (step idx (p, d) st).
Proof.
  intros Hh Hp (Hk & Hu & Hkeys & Hd & He & Hf & Hn).
  unfold only_unchanged.
  cases_of idx p d st; try done; try congruence.
  - rewrite Hk, lookup_empty in *. done.
  - rewrite length_app. simpl. repeat split; try done. lia.
Qed.

Lemma loop_only_unchanged cands idx st :
  ledger_current fs persisted cands ->
  only_unchanged st ->
  only_unchanged (loop idx cands st).
Proof.
  revert idx st. induction cands as [|[p d] rest IH];
    intros idx st Hcur Hst; simpl; [done|].
  destruct (env_interrupted env idx); [done|].
  destruct (Hcur (p, d)) as (h & Hh & Hp); [set_solver|].
  apply IH.
  - intros c Hc. apply Hcur. set_solver.
  - by apply (step_only_unchanged idx p d st h).
Qed.

End TwoRuns.

Lemma clean_real_run cfg fs env disk :
  rep_errors (run_report (backup_run cfg fs env false disk)) = [] ->
  man_errors (run_loop_state cfg fs env false disk) = []
  /\ run_ledger_file (backup_run cfg fs env false disk)
     = Stored (updated_hashes (run_loop_state cfg fs env false disk)).
Proof.
  unfold backup_run, run_loop_state, save_hash_db_atomic, bucket_estimate.
  destruct (env_save_error env), (env_listing env); cbn; intros Herr;
    try (by apply app_eq_nil in Herr as [_ ?]);
    rewrite app_nil_r in Herr; done.
Qed.

Lemma run_uploaded_count cfg fs env dry_run disk :
  rep_files_uploaded (run_report (backup_run cfg fs env dry_run disk))
  = length (uploaded_keys (run_loop_state cfg fs env dry_run disk)).
Proof.
  unfold backup_run, run_loop_state, save_hash_db_atomic, bucket_estimate.
  destruct dry_run, (env_save_error env), (env_listing env); reflexivity.
Qed.

(** C2, as the claim states it, fails.  Run one meets a store that
    rejects the put, records the failure and saves a ledger without the
    file; run two, on the same files and with that ledger, uploads it.
    Likewise, when run one is stopped by a signal after its first file,
    run two uploads the file run one never reached. *)
Lemma idempotence_counterexample :
  (let r1 := backup_run Sample.cfg Sample.fs_one Sample.store_down false
               NoFile in
   let r2 := backup_run Sample.cfg Sample.fs_one Sample.quiet false
               (run_ledger_file r1) in
   run_ledger_file r1 = Stored ∅
   /\ length (rm_uploaded (run_manifest r2)) = 1%nat
   /\ rm_unchanged (run_manifest r2) = [])
  /\ (let r1 := backup_run Sample.cfg Sample.fs_two_copies
                  Sample.interrupted_after_first false NoFile in
      let r2 := backup_run Sample.cfg Sample.fs_two_copies Sample.quiet
                  false (run_ledger_file r1) in
      rm_errors (run_manifest r1) = []
      /\ length (rm_uploaded (run_manifest r2)) = 1%nat
      /\ length (rm_unchanged (run_manifest r2)) = 1%nat).
Proof. vm_compute. done. Qed.

(** C2, amended.  When run one is a real run that is never interrupted
    and reports no error at all (no failed file, no failed ledger
    save), a second run over the same files that loads the ledger run
    one saved records no upload, no duplicate skip and no failed file:
    every candidate it processes is skipped as unchanged.  This holds
    whether run two is a dry run or not and whether or not it is
    interrupted. *)
Theorem second_run_uploads_nothing cfg fs env1 env2 dry_run2 disk :
  never_interrupted env1 ->
  rep_errors (run_report (backup_run cfg fs env1 false disk)) = [] ->
  let r1 := backup_run cfg fs env1 false disk in
  let r2 := backup_run cfg fs env2 dry_run2 (run_ledger_file r1) in
  rm_uploaded (run_manifest r2) = []
  /\ rep_files_uploaded (run_report r2) = 0%nat
  /\ rm_skipped_duplicates (run_manifest r2) = []
  /\ file_errors (rm_errors (run_manifest r2)) = []
  /\ length (rm_unchanged (run_manifest r2))
     = rm_files_processed_count (run_manifest r2).
Proof.
  intros Hi Hclean r1 r2.
  destruct (clean_real_run cfg fs env1 disk Hclean) as [Herr Hfile].
  fold r1 in Hfile.
  (* run one leaves the current hash of every candidate in the ledger *)
  assert (Hcur : ledger_current fs
                   (updated_hashes (run_loop_state cfg fs env1 false disk))
                   (candidates_of_run cfg fs)).
  { unfold run_loop_state in *.
    destruct (loop_ledger_tracks cfg fs env1 false (load_hash_db disk)
                (env_time_start env1) (length (candidates_of_run cfg fs))
                (candidates_of_run cfg fs) 1
                (initial_state (load_hash_db disk) (drive_labels cfg))
                Hi Herr) as [[Hseen _] Hall].
    { split; intros p Hp; simpl in *; [set_solver | done]. }
    intros c Hc. apply Hseen, Hall, Hc. }
  (* run two finds every candidate unchanged *)
  destruct (backup_run_fields cfg fs env2 dry_run2 (run_ledger_file r1))
    as (_ & Hup & Hdup & Hun & _ & Hproc & Hfe & _).
  fold r2 in Hup, Hdup, Hun, Hproc, Hfe.
  pose proof (run_uploaded_count cfg fs env2 dry_run2 (run_ledger_file r1))
    as Hcount.
  fold r2 in Hcount.
  assert (Hst : only_unchanged
                  (run_loop_state cfg fs env2 dry_run2 (run_ledger_file r1))).
  { unfold run_loop_state. rewrite Hfile. simpl load_hash_db.
    apply loop_only_unchanged; [exact Hcur|].
    by repeat split. }
  destruct Hst as (_ & Hu & Hkeys & Hd & He & _ & Hn).
  rewrite Hup, Hcount, Hdup, Hfe, Hun, Hproc, Hu, Hkeys, Hd, He.
  by repeat split.
Qed.

Lemma second_run_uploads_nothing_witness :
  let r1 := backup_run Sample.cfg Sample.fs_two_copies Sample.quiet false
              NoFile in
  let r2 := backup_run Sample.cfg Sample.fs_two_copies Sample.store_down
              false (run_ledger_file r1) in
  rm_uploaded (run_manifest r2) = []
  /\ rep_files_uploaded (run_report r2) = 0%nat
  /\ rm_skipped_duplicates (run_manifest r2) = []
  /\ file_errors (rm_errors (run_manifest r2)) = []
  /\ length (rm_unchanged (run_manifest r2))
     = rm_files_processed_count (run_manifest r2).
Proof.
  apply (second_run_uploads_nothing Sample.cfg Sample.fs_two_copies
           Sample.quiet Sample.store_down false NoFile).
  - intros idx. reflexivity.
  - vm_compute. reflexivity.
Defined.

(** ** Where progress samples come from *)

(** One pass through the loop body adds a progress sample exactly when
    it reaches the transfer step: after a simulated upload, an upload or
    a failed upload.  A path seen before, a hash failure, a duplicate
    skip and an unchanged skip add none. *)
Lemma progress_sample_only_after_transfer cfg fs env dry_run persisted
    start_time total_files idx abs_path drive_name st :
  let st' := process_file cfg fs env dry_run persisted start_time
               total_files idx (abs_path, drive_name) st in
  man_progress_samples st' = man_progress_samples st
  \/ (man_progress_samples st'
      = man_progress_samples st
        ++ [progress_sample env start_time total_files idx
              (S (processed_files st))]
      /\ exists h,
           fs_sha256 fs abs_path = inr h
           /\ content_hash_to_s3key st !! h = None
           /\ persisted !! abs_path ≠ Some h).
Proof.
  cbv zeta.
  destruct (process_file_case cfg fs env dry_run persisted start_time
              total_files idx abs_path drive_name st); simpl;
    first [ by left | right; split; [done | eauto] ].
Qed.

(** * Further properties of the engine *)

Section EngineInvariants.
Context (cfg : Config) (fs : FS) (env : Env).
Context (dry_run : bool) (persisted : gmap string string).
Context (start_time : Q) (total_files : nat).

Local Abbreviation step := (process_file cfg fs env dry_run persisted
                          start_time total_files).
Local Abbreviation loop := (process_loop cfg fs env dry_run persisted
                          start_time total_files).
Local Arguments process_file : simpl never.

Ltac cases_of idx p d st :=
  destruct (process_file_case cfg fs env dry_run persisted start_time
              total_files idx p d st); simpl in *.

(** Any property the loop body keeps is kept by the loop. *)
Lemma loop_invariant (P : LoopState -> Prop) :
  (forall idx p d st, P st -> P (step idx (p, d) st)) ->
  forall cands idx st, P st -> P (loop idx cands st).
Proof.
  intros Hstep cands. induction cands as [|[p d] rest IH];
    intros idx st Hst; simpl; [done|].
  destruct (env_interrupted env idx); [done|].
  by apply IH, Hstep.
Qed.

Lemma file_errors_snoc (l : list ErrorEntry) (p e : string) :
  file_errors l = l -> file_errors (l ++ [FileError p e]) = l ++ [FileError p e].
Proof.
  intros Hl. unfold file_errors in *. rewrite List.filter_app. simpl.
  by rewrite Hl.
Qed.

Lemma size_add_unseen (p : string) (s : gset string) :
  p ∉ s -> size ({[p]} ∪ s) = S (size s).
Proof.
  intros Hp. rewrite size_union by set_solver. by rewrite size_singleton.
Qed.

Lemma step_accounted idx p d st :
  accounted st -> accounted (step idx (p, d) st).
Proof.
  intros (Hsize & Hsum & Herr). unfold accounted, outcomes in *.
  cases_of idx p d st; try done;
    rewrite ?size_add_unseen, ?length_app, ?file_errors_snoc by done;
    simpl; repeat split; try done; lia.
Qed.

Lemma step_report_agrees idx p d st :
  report_agrees st -> report_agrees (step idx (p, d) st).
Proof.
  intros (Hk & Hd & He). unfold report_agrees.
  cases_of idx p d st; try done;
    rewrite ?fmap_app, ?Hk, ?Hd, ?He; done.
Qed.

Lemma step_ledger_sound idx p d st :
  ledger_sound fs persisted st ->
  ledger_sound fs persisted (step idx (p, d) st).
Proof.
  intros Hs. unfold ledger_sound.
  cases_of idx p d st; try done; intros q hq;
    rewrite lookup_insert; case_decide; try apply Hs;
    intros; simplify_eq; by right.
Qed.

Lemma step_puts_accounted idx p d st :
  puts_accounted cfg dry_run st ->
  puts_accounted cfg dry_run (step idx (p, d) st).
Proof.
  intros (Hall & Hkeys & Hlen). unfold puts_accounted.
  assert (Hmono : forall s : gset string,
    Forall (fun e => exists f k,
              e = PutObject f (S3_BUCKET cfg) k /\ f ∈ seen_paths st)
           (effects st) ->
    seen_paths st ⊆ s ->
    Forall (fun e => exists f k,
              e = PutObject f (S3_BUCKET cfg) k /\ f ∈ s) (effects st)).
  { intros s HF Hsub. eapply Forall_impl; [exact HF|].
    intros e (f & k & -> & Hf). exists f, k. split; [done|set_solver]. }
  cases_of idx p d st; try done.
  - repeat split; [apply Hmono; [done|set_solver] | done | lia].
  - repeat split; [apply Hmono; [done|set_solver] | done | lia].
  - repeat split; [apply Hmono; [done|set_solver] | done | lia].
  - repeat split; [apply Hmono; [done|set_solver] | congruence | lia].
  - repeat split.
    + apply Forall_app. split; [apply Hmono; [done|set_solver]|].
      constructor; [|constructor]. eexists _, _. split; [done|set_solver].
    + intros Hd k Hk. apply elem_of_app in Hk as [Hk|Hk].
      * destruct (Hkeys Hd k Hk) as [f Hf]. exists f. set_solver.
      * apply list_elem_of_singleton in Hk as ->. exists p. set_solver.
    + rewrite length_app. simpl. lia.
  - repeat split.
    + apply Forall_app. split; [apply Hmono; [done|set_solver]|].
      constructor; [|constructor]. eexists _, _. split; [done|set_solver].
    + intros Hd k Hk. destruct (Hkeys Hd k Hk) as [f Hf]. exists f.
      set_solver.
    + rewrite length_app. simpl. lia.
Qed.

End EngineInvariants.

Section LoopBounds.
Context (cfg : Config) (fs : FS) (env : Env).
Context (dry_run : bool) (persisted : gmap string string).
Context (start_time : Q) (total_files : nat).

Local Abbreviation step := (process_file cfg fs env dry_run persisted
                          start_time total_files).
Local Abbreviation loop := (process_loop cfg fs env dry_run persisted
                          start_time total_files).
Local Arguments process_file : simpl never.

Lemma loop_seen_all cands idx st :
  never_interrupted env ->
  seen_paths (loop idx cands st) = list_to_set cands.*1 ∪ seen_paths st.
Proof.
  intros Hi. revert idx st. induction cands as [|[p d] rest IH];
    intros idx st; simpl.
  - set_solver.
  - rewrite Hi, IH, step_seen_paths. set_solver.
Qed.

Lemma loop_stops_at_signal cands idx st k :
  (idx <= k)%nat ->
  env_interrupted env k = true ->
  loop idx cands st = loop idx (take (k - idx) cands) st.
Proof.
  revert idx st. induction cands as [|c rest IH]; intros idx st Hle Hk.
  - by rewrite take_nil.
  - destruct (decide (idx = k)) as [->|Hne].
    + rewrite Nat.sub_diag. simpl. by rewrite Hk.
    + replace (k - idx)%nat with (S (k - S idx)) by lia. simpl.
      destruct (env_interrupted env idx); [done|].
      apply IH; [lia | done].
Qed.

Lemma loop_processed_le cands idx st :
  (processed_files (loop idx cands st)
   <= processed_files st + length cands)%nat.
Proof.
  revert idx st. induction cands as [|[p d] rest IH]; intros idx st;
    simpl; [lia|].
  destruct (env_interrupted env idx); [lia|].
  etrans; [apply IH|].
  destruct (process_file_case cfg fs env dry_run persisted start_time
              total_files idx p d st); simpl; lia.
Qed.

End LoopBounds.

(** ** What the run returns, continued *)

Lemma backup_run_report_fields cfg fs env dry_run disk :
  let r := backup_run cfg fs env dry_run disk in
  let st := run_loop_state cfg fs env dry_run disk in
  rep_uploaded_keys (run_report r) = mask_s3_key <$> uploaded_keys st
  /\ rep_duplicate_skips (run_report r) = duplicate_skips st
  /\ rep_files_uploaded (run_report r) = length (uploaded_keys st)
  /\ rm_files_uploaded_count (run_manifest r) = length (uploaded_keys st)
  /\ rep_files_processed (run_report r) = processed_files st
  /\ (exists tail, run_effects r = effects st ++ tail
                   /\ Forall (fun e => ~ is_put e) tail).
Proof.
  unfold backup_run, run_loop_state, save_hash_db_atomic, bucket_estimate.
  destruct dry_run, (env_save_error env), (env_listing env); cbn;
    repeat split; eexists; (split; [reflexivity|]);
    repeat constructor; auto.
Qed.

Lemma initial_state_invariants cfg fs dry_run persisted labels :
  let st := initial_state persisted labels in
  accounted st /\ report_agrees st /\ ledger_sound fs persisted st
  /\ puts_accounted cfg dry_run st.
Proof.
  cbv zeta. unfold accounted, report_agrees, ledger_sound, puts_accounted,
    outcomes. simpl. repeat split; try done; auto.
  - intros _ k Hk. by apply elem_of_nil in Hk.
Qed.

(** ** Properties of every run *)

(** X1.  Every file the run counts as processed has exactly one
    recorded outcome: the number of processed files is the number of
    uploads, duplicate skips and unchanged skips plus the number of
    failed files. *)
Theorem every_processed_file_has_one_outcome cfg fs env dry_run disk :
  let r := backup_run cfg fs env dry_run disk in
  rm_files_processed_count (run_manifest r)
  = (rm_outcomes (run_manifest r)
     + length (file_errors (rm_errors (run_manifest r))))%nat.
Proof.
  intros r.
  destruct (backup_run_fields cfg fs env dry_run disk)
    as (_ & Hup & Hdup & Hun & _ & Hproc & Herr & _).
  fold r in Hup, Hdup, Hun, Hproc, Herr.
  unfold rm_outcomes. rewrite Hup, Hdup, Hun, Hproc, Herr.
  destruct (initial_state_invariants cfg fs dry_run (load_hash_db disk)
              (drive_labels cfg)) as (Hacc & _).
  pose proof (loop_invariant cfg fs env dry_run (load_hash_db disk)
                (env_time_start env) (length (candidates_of_run cfg fs))
                accounted
                (step_accounted cfg fs env dry_run (load_hash_db disk)
                   (env_time_start env) (length (candidates_of_run cfg fs)))
                (candidates_of_run cfg fs) 1 _ Hacc) as (_ & Hsum & Hfe).
  fold (run_loop_state cfg fs env dry_run disk) in Hsum, Hfe.
  rewrite Hfe. exact Hsum.
Qed.

(** X2.  The report mirrors the manifest: its uploaded keys are the
    masked keys of the manifest's upload entries, in order, its
    duplicate skips and errors are the manifest's, and both upload
    counts are the number of upload entries. *)
Theorem report_mirrors_manifest cfg fs env dry_run disk :
  let r := backup_run cfg fs env dry_run disk in
  rep_uploaded_keys (run_report r)
    = ue_s3_key <$> rm_uploaded (run_manifest r)
  /\ rep_duplicate_skips (run_report r)
     = rm_skipped_duplicates (run_manifest r)
  /\ rep_errors (run_report r) = rm_errors (run_manifest r)
  /\ rep_files_uploaded (run_report r)
     = length (rm_uploaded (run_manifest r))
  /\ rm_files_uploaded_count (run_manifest r)
     = length (rm_uploaded (run_manifest r))
  /\ rep_files_processed (run_report r)
     = rm_files_processed_count (run_manifest r).
Proof.
  intros r.
  destruct (backup_run_fields cfg fs env dry_run disk)
    as (_ & Hup & Hdup & _ & _ & Hproc & _ & Herr & _).
  destruct (backup_run_report_fields cfg fs env dry_run disk)
    as (Hk & Hd & Hn & Hm & Hp & _).
  fold r in Hup, Hdup, Hproc, Herr, Hk, Hd, Hn, Hm, Hp.
  destruct (initial_state_invariants cfg fs dry_run (load_hash_db disk)
              (drive_labels cfg)) as (_ & Hagr & _).
  pose proof (loop_invariant cfg fs env dry_run (load_hash_db disk)
                (env_time_start env) (length (candidates_of_run cfg fs))
                report_agrees
                (step_report_agrees cfg fs env dry_run (load_hash_db disk)
                   (env_time_start env) (length (candidates_of_run cfg fs)))
                (candidates_of_run cfg fs) 1 _ Hagr) as (Hkeys & Hdups & _).
  fold (run_loop_state cfg fs env dry_run disk) in Hkeys, Hdups.
  rewrite Hk, Hd, Herr, Hn, Hm, Hp, Hup, Hdup, Hproc, Hkeys, Hdups.
  repeat split; try done.
  - rewrite <- (length_fmap mask_s3_key), Hkeys. apply length_fmap.
  - rewrite <- (length_fmap mask_s3_key), Hkeys. apply length_fmap.
Qed.

(** X3.  Whatever the ledger holds for a path at the end of a run is
    either the entry that was loaded for it or the hash computed for
    that path's file: the run never records a hash it did not read. *)
Theorem ledger_holds_loaded_or_fresh_hashes cfg fs env dry_run disk p h :
  run_updated_hashes (backup_run cfg fs env dry_run disk) !! p = Some h ->
  load_hash_db disk !! p = Some h \/ fs_sha256 fs p = inr h.
Proof.
  destruct (backup_run_fields cfg fs env dry_run disk) as (-> & _).
  destruct (initial_state_invariants cfg fs dry_run (load_hash_db disk)
              (drive_labels cfg)) as (_ & _ & Hsound & _).
  apply (loop_invariant cfg fs env dry_run (load_hash_db disk)
           (env_time_start env) (length (candidates_of_run cfg fs))
           (ledger_sound fs (load_hash_db disk))
           (step_ledger_sound cfg fs env dry_run (load_hash_db disk)
              (env_time_start env) (length (candidates_of_run cfg fs)))
           (candidates_of_run cfg fs) 1 _ Hsound).
Qed.

Lemma ledger_holds_loaded_or_fresh_hashes_witness :
  load_hash_db NoFile !! "/Pictures/b.jpg" = Some "H1"
  \/ fs_sha256 Sample.fs_two_copies "/Pictures/b.jpg" = inr "H1".
Proof.
  apply (ledger_holds_loaded_or_fresh_hashes Sample.cfg
           Sample.fs_two_copies Sample.quiet false NoFile
           "/Pictures/b.jpg" "H1").
  vm_compute. reflexivity.
Defined.

(** X4.  The puts of a run: every put goes to the configured bucket and
    uploads a candidate's file, there are no more puts than processed
    files, and in a real run every key recorded as uploaded was put. *)
Theorem puts_match_the_record cfg fs env dry_run disk :
  let r := backup_run cfg fs env dry_run disk in
  let st := run_loop_state cfg fs env dry_run disk in
  (forall f b k, PutObject f b k ∈ run_effects r ->
     b = S3_BUCKET cfg /\ f ∈ (candidates_of_run cfg fs).*1)
  /\ (dry_run = false ->
      forall k, k ∈ uploaded_keys st ->
        exists f, PutObject f (S3_BUCKET cfg) k ∈ run_effects r)
  /\ (put_count (run_effects r)
      <= rm_files_processed_count (run_manifest r))%nat.
Proof.
  intros r st.
  destruct (backup_run_fields cfg fs env dry_run disk)
    as (_ & _ & _ & _ & _ & Hproc & _).
  destruct (backup_run_report_fields cfg fs env dry_run disk)
    as (_ & _ & _ & _ & _ & tail & Heff & Htail).
  fold r in Hproc, Heff. fold st in Hproc, Heff.
  destruct (initial_state_invariants cfg fs dry_run (load_hash_db disk)
              (drive_labels cfg)) as (_ & _ & _ & Hputs).
  pose proof (loop_invariant cfg fs env dry_run (load_hash_db disk)
                (env_time_start env) (length (candidates_of_run cfg fs))
                (puts_accounted cfg dry_run)
                (step_puts_accounted cfg fs env dry_run (load_hash_db disk)
                   (env_time_start env) (length (candidates_of_run cfg fs)))
                (candidates_of_run cfg fs) 1 _ Hputs) as (Hall & Hkeys & Hlen).
  fold (run_loop_state cfg fs env dry_run disk) in Hall, Hkeys, Hlen.
  fold st in Hall, Hkeys, Hlen.
  rewrite Heff, Hproc. split; [|split].
  - intros f b k Hin. apply elem_of_app in Hin as [Hin|Hin].
    + rewrite Forall_forall in Hall.
      destruct (Hall _ Hin) as (f' & k' & Heq & Hseen). simplify_eq.
      split; [done|].
      apply loop_seen_paths in Hseen as [Hseen|Hseen]; [|done].
      simpl in Hseen. set_solver.
    + rewrite Forall_forall in Htail. by destruct (Htail _ Hin).
  - intros Hd k Hk. destruct (Hkeys Hd k Hk) as [f Hf]. exists f.
    set_solver.
  - unfold put_count. rewrite List.filter_app, length_app.
    assert (Hnone : List.filter is_put_effect tail = []).
    { clear -Htail. induction Htail as [|e l He _ IH]; simpl; [done|].
      destruct e; simpl in *; done. }
    rewrite Hnone. simpl.
    pose proof (List.filter_length_le is_put_effect (effects st)).
    lia.
Qed.

(** X5.  In a run that is never interrupted every distinct candidate
    path is processed, and processed once: the count of processed files
    is the number of distinct paths in the candidate list. *)
Theorem each_distinct_path_processed_once cfg fs env dry_run disk :
  never_interrupted env ->
  rm_files_processed_count
    (run_manifest (backup_run cfg fs env dry_run disk))
  = size (list_to_set (candidates_of_run cfg fs).*1 : gset string).
Proof.
  intros Hi.
  destruct (backup_run_fields cfg fs env dry_run disk)
    as (_ & _ & _ & _ & _ & -> & _).
  destruct (initial_state_invariants cfg fs dry_run (load_hash_db disk)
              (drive_labels cfg)) as (Hacc & _).
  pose proof (loop_invariant cfg fs env dry_run (load_hash_db disk)
                (env_time_start env) (length (candidates_of_run cfg fs))
                accounted
                (step_accounted cfg fs env dry_run (load_hash_db disk)
                   (env_time_start env) (length (candidates_of_run cfg fs)))
                (candidates_of_run cfg fs) 1 _ Hacc) as (Hsize & _).
  fold (run_loop_state cfg fs env dry_run disk) in Hsize.
  rewrite Hsize. unfold run_loop_state.
  rewrite loop_seen_all by done. simpl. f_equal. set_solver.
Qed.

Lemma each_distinct_path_processed_once_witness :
  rm_files_processed_count
    (run_manifest (backup_run Sample.cfg_nested Sample.fs_nested
                     Sample.quiet false NoFile))
  = size (list_to_set
            (candidates_of_run Sample.cfg_nested Sample.fs_nested).*1
          : gset string).
Proof.
  apply (each_distinct_path_processed_once Sample.cfg_nested
           Sample.fs_nested Sample.quiet false NoFile).
  intros idx. reflexivity.
Defined.

(** X6.  Once the loop finds the signal flag set at the top of
    iteration k, the candidates from position k on are never visited:
    the loop ends in the state it reaches on the first k-1 candidates,
    and at most k-1 files are processed. *)
Theorem nothing_processed_after_signal cfg fs env dry_run disk k :
  (1 <= k)%nat ->
  env_interrupted env k = true ->
  run_loop_state cfg fs env dry_run disk
  = process_loop cfg fs env dry_run (load_hash_db disk)
      (env_time_start env) (length (candidates_of_run cfg fs)) 1
      (take (k - 1) (candidates_of_run cfg fs))
      (initial_state (load_hash_db disk) (drive_labels cfg))
  /\ (rm_files_processed_count
        (run_manifest (backup_run cfg fs env dry_run disk)) <= k - 1)%nat.
Proof.
  intros Hk Hint.
  assert (Heq := loop_stops_at_signal cfg fs env dry_run
                   (load_hash_db disk) (env_time_start env)
                   (length (candidates_of_run cfg fs))
                   (candidates_of_run cfg fs) 1
                   (initial_state (load_hash_db disk) (drive_labels cfg))
                   k Hk Hint).
  split; [exact Heq|].
  destruct (backup_run_fields cfg fs env dry_run disk)
    as (_ & _ & _ & _ & _ & -> & _).
  unfold run_loop_state. rewrite Heq.
  etrans; [apply loop_processed_le|]. simpl.
  rewrite length_take. lia.
Qed.

Lemma nothing_processed_after_signal_witness :
  run_loop_state Sample.cfg Sample.fs_locked
    Sample.interrupted_after_first false NoFile
  = process_loop Sample.cfg Sample.fs_locked
      Sample.interrupted_after_first false (load_hash_db NoFile)
      (env_time_start Sample.interrupted_after_first)
      (length (candidates_of_run Sample.cfg Sample.fs_locked)) 1
      (take (2 - 1) (candidates_of_run Sample.cfg Sample.fs_locked))
      (initial_state (load_hash_db NoFile) (drive_labels Sample.cfg))
  /\ (rm_files_processed_count
        (run_manifest (backup_run Sample.cfg Sample.fs_locked
                         Sample.interrupted_after_first false NoFile))
      <= 2 - 1)%nat.
Proof.
  apply (nothing_processed_after_signal Sample.cfg Sample.fs_locked
           Sample.interrupted_after_first false NoFile 2).
  - lia.
  - reflexivity.
Defined.

(** ** Status and exit code *)

(** X7.  The status line of the notification and the exit code agree:
    the exit code is 0 exactly when the status is "Completed"; the
    status is "Failed (Interrupted)" exactly when the report holds both
    an error and the interruption, and it is always one of the four
    status strings. *)
Theorem status_matches_exit_code (report : Report) :
  (exit_code report = 0%Z <-> run_status report = "Completed")
  /\ (run_status report = "Failed (Interrupted)"
      <-> rep_interrupted report = true /\ rep_errors report <> [])
  /\ (run_status report = "Interrupted"
      <-> rep_interrupted report = true /\ rep_errors report = [])
  /\ (run_status report = "Failed"
      <-> rep_interrupted report = false /\ rep_errors report <> [])
  /\ run_status report
       ∈ ["Completed"; "Failed"; "Interrupted"; "Failed (Interrupted)"].
Proof.
  unfold exit_code, run_status, has_errors.
  destruct (rep_interrupted report), (rep_errors report); cbn;
    repeat split; try done; try (intros [? ?]; done);
    repeat (first [ by apply list_elem_of_here
                  | apply list_elem_of_further ]).
Qed.

(** ** No source mounted *)

Lemma flat_map_all_nil {A B} (f : A -> list B) (l : list A) :
  (forall x, x ∈ l -> f x = []) -> List.flat_map f l = [].
Proof.
  induction l as [|x l IH]; intros Hall; simpl; [done|].
  rewrite (Hall x) by set_solver. apply IH. intros; apply Hall; set_solver.
Qed.

Lemma offline_sources_give_no_candidates cfg fs :
  (forall sd, sd ∈ SOURCE_DRIVES cfg -> fs_exists fs sd.1 = false) ->
  candidates_of_run cfg fs = [].
Proof.
  intros Hoff. unfold candidates_of_run, gather_candidate_files. simpl.
  rewrite flat_map_all_nil; [done|].
  intros sd Hsd. unfold candidates_of_source. by rewrite Hoff.
Qed.

(** X8.  When none of the configured source roots exists, the run
    finds no candidate, processes and uploads nothing, calls the store
    for no file, and lists every drive as offline; if moreover the
    signal flag is not set and the ledger save does not fail, the
    status is "Completed" and the exit code is 0. *)
Theorem offline_sources_complete_silently cfg fs env dry_run disk :
  (forall sd, sd ∈ SOURCE_DRIVES cfg -> fs_exists fs sd.1 = false) ->
  let r := backup_run cfg fs env dry_run disk in
  rm_total_files (run_manifest r) = 0%nat
  /\ rep_files_processed (run_report r) = 0%nat
  /\ rep_files_uploaded (run_report r) = 0%nat
  /\ put_count (run_effects r) = 0%nat
  /\ run_updated_hashes r = load_hash_db disk
  /\ rep_drive_report_lines (run_report r)
     = DriveOffline <$> drive_labels cfg
  /\ (env_interrupted_report env = false ->
      dry_run = true \/ env_save_error env = None ->
      run_status (run_report r) = "Completed"
      /\ exit_code (run_report r) = 0%Z).
Proof.
  intros Hoff r. subst r.
  pose proof (offline_sources_give_no_candidates cfg fs Hoff) as Hc.
  assert (Hlines : forall totals uploaded,
            drive_line fs totals uploaded <$> SOURCE_DRIVES cfg
            = DriveOffline <$> drive_labels cfg).
  { intros totals uploaded. unfold drive_labels.
    induction (SOURCE_DRIVES cfg) as [|[src dn] l IH]; [done|].
    rewrite !fmap_cons. f_equal.
    - assert (H0 : fs_exists fs src = false)
        by (apply (Hoff (src, dn)); by left).
      simpl. by rewrite H0.
    - apply IH. intros sd Hsd. apply Hoff. by right. }
  unfold backup_run, save_hash_db_atomic, bucket_estimate.
  rewrite Hc. cbn [process_loop length].
  destruct dry_run, (env_save_error env) as [msg|] eqn:Hsave,
    (env_listing env); cbn; rewrite ?Hlines;
    (do 6 (split; [done|]));
    intros Hi [?|?]; try done;
    unfold run_status, exit_code, has_errors; cbn; by rewrite Hi.
Qed.

Lemma offline_sources_complete_silently_witness :
  let r := backup_run Sample2.cfg_two_drives Sample2.fs_offline
             Sample.quiet false (Stored Sample.ledger_one) in
  rm_total_files (run_manifest r) = 0%nat
  /\ rep_files_processed (run_report r) = 0%nat
  /\ rep_files_uploaded (run_report r) = 0%nat
  /\ put_count (run_effects r) = 0%nat
  /\ run_updated_hashes r = load_hash_db (Stored Sample.ledger_one)
  /\ rep_drive_report_lines (run_report r)
     = DriveOffline <$> drive_labels Sample2.cfg_two_drives
  /\ (env_interrupted_report Sample.quiet = false ->
      false = true \/ env_save_error Sample.quiet = None ->
      run_status (run_report r) = "Completed"
      /\ exit_code (run_report r) = 0%Z).
Proof.
  apply (offline_sources_complete_silently Sample2.cfg_two_drives
           Sample2.fs_offline Sample.quiet false
           (Stored Sample.ledger_one)).
  intros sd Hsd. reflexivity.
Defined.

(** * Strings, keys and masks *)

Lemma has_char_append c (a b : string) :
  has_char c (a +:+ b) = has_char c a || has_char c b.
Proof.
  induction a as [|x a IH]; simpl; [done|].
  rewrite IH. by rewrite orb_assoc.
Qed.

Lemma contains_one_char c (s : string) :
  Str.contains (String c EmptyString) s = has_char c s.
Proof.
  induction s as [|a t IH]; simpl; [done|].
  destruct (ascii_dec c a) as [->|Hne].
  - rewrite Ascii.eqb_refl. by destruct t.
  - rewrite IH. destruct (Ascii.eqb a c) eqn:He; [|done].
    apply Ascii.eqb_eq in He. congruence.
Qed.

Lemma replace_char_removes (a b : ascii) (s : string) :
  a <> b -> has_char a (Str.replace_char a b s) = false.
Proof.
  intros Hne. induction s as [|c t IH]; simpl; [done|].
  rewrite IH, orb_false_r.
  destruct (Ascii.eqb c a) eqn:He.
  - apply Ascii.eqb_neq. congruence.
  - exact He.
Qed.

(** X9.  A destination key never contains a backslash, whatever the
    date prefix, the label and the relative path are. *)
Theorem s3_key_has_no_backslash cfg fs env idx abs_path drive_name :
  Str.contains "\" (s3_key_of cfg fs env idx abs_path drive_name) = false.
Proof.
  rewrite contains_one_char. unfold s3_key_of.
  by apply replace_char_removes.
Qed.

(** ** Splitting and joining *)

Lemma split_on_nonempty sep (s : string) : Str.split_on sep s <> [].
Proof.
  destruct s as [|c t]; simpl; [done|].
  destruct (Ascii.eqb c sep); [done|].
  by destruct (Str.split_on sep t).
Qed.

Lemma split_on_no_sep sep (s : string) :
  has_char sep s = false -> Str.split_on sep s = [s].
Proof.
  induction s as [|c t IH]; simpl; [done|].
  intros H. apply orb_false_iff in H as [Hc Ht].
  rewrite Hc, IH by done. done.
Qed.

Lemma split_on_append sep (a b : string) :
  has_char sep a = false ->
  Str.split_on sep (a +:+ String sep b) = a :: Str.split_on sep b.
Proof.
  induction a as [|c t IH]; simpl.
  - intros _. by rewrite Ascii.eqb_refl.
  - intros H. apply orb_false_iff in H as [Hc Ht].
    rewrite Hc, IH by done. done.
Qed.

Lemma split_on_join sep (parts : list string) :
  parts <> [] ->
  Forall (fun p => has_char sep p = false) parts ->
  Str.split_on sep (Str.join_with (String sep EmptyString) parts) = parts.
Proof.
  induction parts as [|p rest IH]; [done|].
  intros _ Hall. apply Forall_cons in Hall as [Hp Hrest].
  destruct rest as [|q rest'].
  - simpl. by apply split_on_no_sep.
  - change (Str.join_with (String sep EmptyString) (p :: q :: rest'))
      with (p +:+ String sep EmptyString
              +:+ Str.join_with (String sep EmptyString) (q :: rest')).
    change (String sep EmptyString +:+ ?x) with (String sep x).
    rewrite split_on_append by done. f_equal. by apply IH.
Qed.

(** ** Masked keys and ARNs *)

Lemma split_on_empty_length sep (s : string) :
  (2 <= length (Str.split_on sep s))%nat -> s <> "".
Proof. intros Hlen ->. simpl in Hlen. lia. Qed.

(** X10.  Masking a key whose parts hold no slash: with at least two
    directory parts the directory is kept as it is and only the file
    name is masked; with fewer, the directory is replaced by "...". *)
Theorem mask_s3_key_masks_only_the_name (dirs : list string)
    (name : string) :
  Forall (fun p => has_char "/" p = false) (dirs ++ [name]) ->
  Str.join_with "/" (dirs ++ [name]) <> "" ->
  mask_s3_key (Str.join_with "/" (dirs ++ [name]))
  = if (2 <=? length dirs)%nat
    then Str.join_with "/" dirs +:+ "/" +:+ mask_partial name 3 4
    else ".../" +:+ mask_partial name 3 4.
Proof.
  intros Hall Hne. unfold mask_s3_key.
  rewrite decide_False by done.
  rewrite split_on_join; [|by destruct dirs|done].
  rewrite length_app, List.last_last, List.removelast_last.
  change (length [name]) with 1%nat. rewrite Nat.add_1_r.
  by destruct dirs as [|d1 [|d2 ds]].
Qed.

Lemma mask_s3_key_masks_only_the_name_witness :
  mask_s3_key (Str.join_with "/"
                 (["2026"; "01"; "02"; "MAIN"; "Pictures"] ++ ["holiday.jpg"]))
  = if (2 <=? length ["2026"; "01"; "02"; "MAIN"; "Pictures"])%nat
    then Str.join_with "/" ["2026"; "01"; "02"; "MAIN"; "Pictures"]
         +:+ "/" +:+ mask_partial "holiday.jpg" 3 4
    else ".../" +:+ mask_partial "holiday.jpg" 3 4.
Proof.
  apply (mask_s3_key_masks_only_the_name
           ["2026"; "01"; "02"; "MAIN"; "Pictures"] "holiday.jpg").
  - repeat constructor.
  - discriminate.
Defined.

(** X11.  Masking an ARN with at least six colon-separated fields
    gives a string made of the service field and the masked resource
    field only: the partition, the region, the account and any field
    after the sixth do not appear in it. *)
Theorem mask_arn_hides_region_and_account
    (f0 f1 service region account resource : string)
    (more : list string) :
  Forall (fun p => has_char ":" p = false)
         (f0 :: f1 :: service :: region :: account :: resource :: more) ->
  mask_arn (Str.join_with ":"
              (f0 :: f1 :: service :: region :: account :: resource :: more))
  = "arn:aws:" +:+ service +:+ ":<REDACTED_REGION>:<REDACTED_ACCOUNT>:"
    +:+ mask_partial resource 3 4.
Proof.
  intros Hall. unfold mask_arn.
  assert (Hsplit := split_on_join ":"
            (f0 :: f1 :: service :: region :: account :: resource :: more)
            ltac:(done) Hall).
  rewrite decide_False.
  - rewrite Hsplit. simpl. done.
  - apply (split_on_empty_length ":"). rewrite Hsplit. simpl. lia.
Qed.

Lemma mask_arn_hides_region_and_account_witness :
  mask_arn (Str.join_with ":"
              ["arn"; "aws"; "kms"; "us-east-1"; "123456789012";
               "key/abcd-1234-efgh"])
  = "arn:aws:" +:+ "kms" +:+ ":<REDACTED_REGION>:<REDACTED_ACCOUNT>:"
    +:+ mask_partial "key/abcd-1234-efgh" 3 4.
Proof.
  apply (mask_arn_hides_region_and_account "arn" "aws" "kms" "us-east-1"
           "123456789012" "key/abcd-1234-efgh" []).
  repeat constructor.
Defined.

(** ** Exclusion *)

Lemma prefix_append_l (a b h : string) :
  String.prefix (a +:+ b) h = true -> String.prefix a h = true.
Proof.
  revert h. induction a as [|c a IH]; intros h Hp.
  - by destruct h.
  - destruct h as [|x h]; simpl in *; [done|].
    destruct (ascii_dec c x); [by apply IH|done].
Qed.

Lemma contains_unfold (n h : string) :
  Str.contains n h
  = if String.prefix n h then true
    else match h with
         | EmptyString => false
         | String _ t => Str.contains n t
         end.
Proof. by destruct h. Qed.

Lemma contains_append_l (a b h : string) :
  Str.contains (a +:+ b) h = true -> Str.contains a h = true.
Proof.
  induction h as [|x h IH];
    rewrite (contains_unfold (a +:+ b)), (contains_unfold a);
    destruct (String.prefix (a +:+ b) _) eqn:Hp;
    try (intros _; by rewrite (prefix_append_l a b _ Hp));
    [done|].
  intros Hc. rewrite (IH Hc). by destruct (String.prefix a (String x h)).
Qed.

Lemma prefix_char (a b : ascii) (s1 s2 : string) :
  String.prefix (String a s1) (String b s2)
  = Ascii.eqb a b && String.prefix s1 s2.
Proof.
  change (String.prefix (String a s1) (String b s2))
    with (if ascii_dec a b then String.prefix s1 s2 else false).
  destruct (ascii_dec a b) as [->|Hne].
  - by rewrite Ascii.eqb_refl.
  - apply Ascii.eqb_neq in Hne. by rewrite Hne.
Qed.

Lemma lower_ascii_backslash (c : ascii) :
  Ascii.eqb "\" (Str.lower_ascii c) = Ascii.eqb "\" c.
Proof. destruct c as [[] [] [] [] [] [] [] []]; vm_compute; reflexivity. Qed.

Lemma prefix_double_backslash_lower (p : string) :
  String.prefix "\\" (Str.lower p) = String.prefix "\\" p.
Proof.
  destruct p as [|c1 [|c2 t]]; [done| |].
  - change (Str.lower (String c1 "")) with (String (Str.lower_ascii c1) "").
    by rewrite !prefix_char, lower_ascii_backslash.
  - change (Str.lower (String c1 (String c2 t)))
      with (String (Str.lower_ascii c1)
              (String (Str.lower_ascii c2) (Str.lower t))).
    rewrite !prefix_char, !lower_ascii_backslash.
    by destruct (Str.lower t), t.
Qed.

Lemma contains_double_backslash_lower (p : string) :
  Str.contains "\\" (Str.lower p) = Str.contains "\\" p.
Proof.
  induction p as [|c t IH]; [done|].
  pose proof (prefix_double_backslash_lower (String c t)) as Hp.
  change (Str.lower (String c t))
    with (String (Str.lower_ascii c) (Str.lower t)) in *.
  rewrite (contains_unfold _ (String c t)),
    (contains_unfold _ (String (Str.lower_ascii c) (Str.lower t))).
  by rewrite Hp, IH.
Qed.

Lemma exclude_parts_start_with_two_backslashes :
  Forall (fun part => exists rest, Str.lower part = "\\" +:+ rest)
         EXCLUDE_PATH_PARTS.
Proof. repeat constructor; eexists; vm_compute; reflexivity. Qed.

(** X12.  A path whose normalised form holds no two backslashes in a
    row is never excluded: every exclusion part begins with two
    backslashes, so the substring test cannot succeed on it. *)
Theorem exclusion_needs_double_backslash fs full_path :
  Str.contains "\\" (fs_normcase fs (fs_abspath fs full_path)) = false ->
  path_is_excluded fs full_path EXCLUDE_PATH_PARTS = false.
Proof.
  intros Hno. unfold path_is_excluded.
  apply not_true_is_false. intros Hex.
  apply existsb_exists in Hex as (part & Hin & Hc).
  pose proof exclude_parts_start_with_two_backslashes as Hall.
  rewrite List.Forall_forall in Hall.
  destruct (Hall part Hin) as [rest Hrest].
  rewrite Hrest in Hc. apply contains_append_l in Hc.
  rewrite contains_double_backslash_lower in Hc. congruence.
Qed.

Lemma exclusion_needs_double_backslash_witness :
  path_is_excluded Sample.fs_one "C:\Windows\System32\cmd.exe"
    EXCLUDE_PATH_PARTS = false.
Proof.
  apply (exclusion_needs_double_backslash Sample.fs_one
           "C:\Windows\System32\cmd.exe").
  vm_compute. reflexivity.
Defined.

(** * Scanner *)

Lemma elem_of_flat_map {A B} (f : A -> list B) (l : list A) (y : B) :
  y ∈ List.flat_map f l <-> exists x, x ∈ l /\ y ∈ f x.
Proof.
  rewrite list_elem_of_In, in_flat_map.
  split; intros (x & Hx & Hy); exists x; by rewrite ?list_elem_of_In in *.
Qed.

(** X13.  Every root the scanner walks for a source is the normalised
    path of a folder that exists and is named Pictures, Videos,
    Desktop or Downloads, located either directly under the source
    root or under one of the entries that listing the source's Users
    folder returned. *)
Theorem allowed_roots_are_existing_named_folders fs source r :
  r ∈ build_allowed_paths_for_source fs source ALLOWED_FOLDER_NAMES
        EXPLICIT_ABSOLUTE_PATHS ->
  exists c name,
    name ∈ ALLOWED_FOLDER_NAMES
    /\ fs_exists fs c = true
    /\ r = fs_normpath fs (fs_abspath fs c)
    /\ (c = fs_join fs source name
        \/ exists users user,
             fs_exists fs (fs_join fs source "Users") = true
             /\ fs_listdir fs (fs_join fs source "Users") = Some users
             /\ user ∈ users
             /\ c = fs_join fs (fs_join fs (fs_join fs source "Users") user)
                      name).
Proof.
  unfold build_allowed_paths_for_source. rewrite sorted_set_elem.
  intros Hr. apply list_elem_of_fmap in Hr as (c & -> & Hc).
  change (filter _ EXPLICIT_ABSOLUTE_PATHS) with (@nil string) in Hc.
  rewrite fmap_nil, app_nil_l in Hc.
  apply elem_of_app in Hc as [Hc|Hc].
  - destruct (fs_exists fs (fs_join fs source "Users")) eqn:Hu;
      [|by apply elem_of_nil in Hc].
    destruct (fs_listdir fs (fs_join fs source "Users")) as [users|] eqn:Hl;
      [|by apply elem_of_nil in Hc].
    apply elem_of_flat_map in Hc as (user & Huser & Hc).
    apply list_elem_of_filter in Hc as [Hex Hc].
    apply list_elem_of_fmap in Hc as (name & -> & Hname).
    exists (fs_join fs (fs_join fs (fs_join fs source "Users") user) name), name.
    repeat split; try done. right. by exists users, user.
  - apply list_elem_of_filter in Hc as [Hex Hc].
    apply list_elem_of_fmap in Hc as (name & -> & Hname).
    exists (fs_join fs source name), name. repeat split; try done. by left.
Qed.

Lemma files_here_sound fs root children f :
  f ∈ files_here fs root children ->
  path_is_excluded fs f EXCLUDE_PATH_PARTS = false.
Proof.
  unfold files_here. intros Hf.
  apply elem_of_flat_map in Hf as (e & _ & Hf).
  destruct e as [fname|]; [|by apply elem_of_nil in Hf].
  destruct (path_is_excluded fs (fs_join fs root fname) EXCLUDE_PATH_PARTS)
    eqn:Hex; [by apply elem_of_nil in Hf|].
  apply list_elem_of_singleton in Hf as ->. done.
Qed.

Local Arguments path_is_excluded : simpl never.

Lemma walk_entry_sound fs :
  forall e parent f,
    f ∈ walk_entry fs parent e ->
    path_is_excluded fs f EXCLUDE_PATH_PARTS = false.
Proof.
  fix IH 1. intros [fname|d sub] parent f Hf.
  - by apply elem_of_nil in Hf.
  - cbn [walk_entry] in Hf.
    destruct (path_is_excluded fs (fs_join fs parent d) EXCLUDE_PATH_PARTS);
      [by apply elem_of_nil in Hf|].
    apply elem_of_app in Hf as [Hf|Hf]; [by eapply files_here_sound|].
    revert Hf. generalize (fs_join fs parent d) as root. intros root.
    induction sub as [|e sub IHsub]; cbn [List.flat_map]; intros Hf.
    + by apply elem_of_nil in Hf.
    + apply elem_of_app in Hf as [Hf|Hf]; [by eapply IH|by apply IHsub].
Qed.

(** X14.  Every candidate the engine consumes carries the label of a
    configured source whose root exists, and its path is the normalised
    path of a file found by walking one of that source's allowed roots,
    a file that the exclusion test let pass. *)
Theorem candidates_come_from_mounted_sources cfg fs p d :
  (p, d) ∈ candidates_of_run cfg fs ->
  exists src root file_path,
    (src, d) ∈ SOURCE_DRIVES cfg
    /\ fs_exists fs src = true
    /\ root ∈ build_allowed_paths_for_source fs src ALLOWED_FOLDER_NAMES
                 EXPLICIT_ABSOLUTE_PATHS
    /\ file_path ∈ walk fs root
    /\ p = fs_normcase fs (fs_abspath fs file_path)
    /\ path_is_excluded fs file_path EXCLUDE_PATH_PARTS = false.
Proof.
  unfold candidates_of_run. rewrite dict_fromkeys_elem.
  unfold gather_candidate_files. cbn [fst].
  intros Hc. apply elem_of_flat_map in Hc as ([src dn] & Hsrc & Hc).
  unfold candidates_of_source in Hc. cbn [fst snd] in Hc.
  destruct (fs_exists fs src) eqn:Hex; [|by apply elem_of_nil in Hc].
  apply elem_of_flat_map in Hc as (root & Hroot & Hc).
  apply list_elem_of_fmap in Hc as (file_path & Heq & Hf).
  injection Heq as -> ->.
  exists src, root, file_path. repeat split; try done.
  unfold walk in Hf. apply elem_of_app in Hf as [Hf|Hf].
  - by eapply files_here_sound.
  - apply elem_of_flat_map in Hf as (e & _ & Hf). by eapply walk_entry_sound.
Qed.

Lemma allowed_roots_are_existing_named_folders_witness :
  exists c name,
    name ∈ ALLOWED_FOLDER_NAMES
    /\ fs_exists Sample.fs_nested c = true
    /\ "/Users/bob/Pictures"
       = fs_normpath Sample.fs_nested (fs_abspath Sample.fs_nested c)
    /\ (c = fs_join Sample.fs_nested "/" name
        \/ exists users user,
             fs_exists Sample.fs_nested (fs_join Sample.fs_nested "/" "Users")
               = true
             /\ fs_listdir Sample.fs_nested
                  (fs_join Sample.fs_nested "/" "Users") = Some users
             /\ user ∈ users
             /\ c = fs_join Sample.fs_nested
                      (fs_join Sample.fs_nested
                         (fs_join Sample.fs_nested "/" "Users") user) name).
Proof.
  apply (allowed_roots_are_existing_named_folders Sample.fs_nested "/"
           "/Users/bob/Pictures").
  match goal with
  | |- ?P => apply (bool_decide_unpack P); vm_compute; exact I
  end.
Defined.

Lemma candidates_come_from_mounted_sources_witness :
  exists src root file_path,
    (src, "MAIN") ∈ SOURCE_DRIVES Sample.cfg
    /\ fs_exists Sample.fs_one src = true
    /\ root ∈ build_allowed_paths_for_source Sample.fs_one src
                 ALLOWED_FOLDER_NAMES EXPLICIT_ABSOLUTE_PATHS
    /\ file_path ∈ walk Sample.fs_one root
    /\ "/Pictures/a.jpg"
       = fs_normcase Sample.fs_one (fs_abspath Sample.fs_one file_path)
    /\ path_is_excluded Sample.fs_one file_path EXCLUDE_PATH_PARTS = false.
Proof.
  apply (candidates_come_from_mounted_sources Sample.cfg Sample.fs_one
           "/Pictures/a.jpg" "MAIN").
  match goal with
  | |- ?P => apply (bool_decide_unpack P); vm_compute; exact I
  end.
Defined.

(** * Sizes *)




(** * Drive status lines *)

Lemma zero_map_lookup (labels : list string) (d : string) :
  default 0%nat
    ((list_to_map ((fun v => (v, 0%nat)) <$> labels) : gmap string nat) !! d)
  = 0%nat.
Proof.
  induction labels as [|v l IH]; simpl; [by rewrite lookup_empty|].
  rewrite lookup_insert. by case_decide.
Qed.

Lemma drive_totals_count (cands : list (string * string))
    (m : gmap string nat) (d : string) :
  default 0%nat (foldl (count_drive) m cands !! d)
  = (default 0%nat (m !! d) + count_label d cands)%nat.
Proof.
  revert m. induction cands as [|c l IH]; intros m; simpl.
  - unfold count_label. simpl. lia.
  - rewrite IH. unfold count_drive, count_label. simpl.
    rewrite lookup_insert. case_decide as Hc.
    + rewrite bool_decide_eq_true_2 by done. subst. simpl. lia.
    + rewrite bool_decide_eq_false_2 by done. lia.
Qed.

Section Uploaded.
Context (cfg : Config) (fs : FS) (env : Env).
Context (dry_run : bool) (persisted : gmap string string).
Context (start_time : Q) (total_files : nat).
Local Arguments process_file : simpl never.

Lemma step_drive_uploaded idx p dn st d :
  (default 0%nat
     (drive_uploaded (process_file cfg fs env dry_run persisted start_time
                        total_files idx (p, dn) st) !! d)
   <= default 0%nat (drive_uploaded st !! d) + count_label d [(p, dn)])%nat.
Proof.
  unfold count_label. simpl.
  destruct (process_file_case cfg fs env dry_run persisted start_time
              total_files idx p dn st); simpl; try lia;
    rewrite lookup_insert; case_decide; simpl;
    try (rewrite bool_decide_eq_true_2 by done; subst; simpl; lia); lia.
Qed.

Lemma loop_drive_uploaded cands idx st d :
  (default 0%nat
     (drive_uploaded (process_loop cfg fs env dry_run persisted start_time
                        total_files idx cands st) !! d)
   <= default 0%nat (drive_uploaded st !! d) + count_label d cands)%nat.
Proof.
  revert idx st. induction cands as [|[p dn] l IH]; intros idx st; simpl.
  - lia.
  - destruct (env_interrupted env idx); [lia|].
    etrans; [apply IH|].
    pose proof (step_drive_uploaded idx p dn st d) as Hs.
    unfold count_label in *. simpl in *.
    destruct (bool_decide (dn = d)); simpl in *; lia.
Qed.

End Uploaded.

Lemma percent_bounded (up total : nat) :
  (up <= total)%nat -> (0 < total)%nat ->
  (0 <= inject_Z (Z.of_nat up) / inject_Z (Z.of_nat total) * 100
   /\ inject_Z (Z.of_nat up) / inject_Z (Z.of_nat total) * 100 <= 100)%Q.
Proof.
  intros Hle Hpos.
  assert (Ht : (0 < inject_Z (Z.of_nat total))%Q).
  { change 0%Q with (inject_Z 0). rewrite <- Zlt_Qlt. lia. }
  assert (Hu : (0 <= inject_Z (Z.of_nat up))%Q).
  { change 0%Q with (inject_Z 0). rewrite <- Zle_Qle. lia. }
  assert (Hr0 : (0 <= inject_Z (Z.of_nat up) / inject_Z (Z.of_nat total))%Q).
  { apply Qle_shift_div_l; [done|]. by rewrite Qmult_0_l. }
  assert (Hr1 : (inject_Z (Z.of_nat up) / inject_Z (Z.of_nat total) <= 1)%Q).
  { apply Qle_shift_div_r; [done|]. rewrite Qmult_1_l.
    rewrite <- Zle_Qle. lia. }
  split.
  - apply Qmult_le_0_compat; [done|]. done.
  - apply Qle_trans with (1 * 100)%Q;
      [by apply Qmult_le_compat_r | by vm_compute].
Qed.

Lemma backup_run_drive_lines cfg fs env dry_run disk :
  rep_drive_report_lines (run_report (backup_run cfg fs env dry_run disk))
  = drive_line fs (drive_totals_of cfg (candidates_of_run cfg fs))
      (drive_uploaded (run_loop_state cfg fs env dry_run disk))
      <$> SOURCE_DRIVES cfg.
Proof.
  unfold backup_run, run_loop_state, save_hash_db_atomic, bucket_estimate.
  destruct dry_run, (env_save_error env), (env_listing env); reflexivity.
Qed.

(** X16.  The percentage shown for an online drive lies between 0 and
    100: a label never has more uploads counted than it has
    candidates. *)
Theorem drive_percent_is_bounded cfg fs env dry_run disk d pct :
  DriveOnline d pct
    ∈ rep_drive_report_lines
        (run_report (backup_run cfg fs env dry_run disk)) ->
  (0 <= pct)%Q /\ (pct <= 100)%Q.
Proof.
  rewrite backup_run_drive_lines. intros Hin.
  apply list_elem_of_fmap in Hin as ([src dn] & Heq & _).
  unfold drive_line in Heq.
  destruct (fs_exists fs src); [|done].
  injection Heq as -> ->.
  pose proof (drive_totals_count (candidates_of_run cfg fs)
                (list_to_map ((fun v => (v, 0%nat)) <$> drive_labels cfg))
                dn) as Htot.
  rewrite zero_map_lookup in Htot.
  fold (drive_totals_of cfg (candidates_of_run cfg fs)) in Htot.
  pose proof (loop_drive_uploaded cfg fs env dry_run (load_hash_db disk)
                (env_time_start env) (length (candidates_of_run cfg fs))
                (candidates_of_run cfg fs) 1
                (initial_state (load_hash_db disk) (drive_labels cfg)) dn)
    as Hup.
  fold (run_loop_state cfg fs env dry_run disk) in Hup.
  simpl drive_uploaded in Hup at 2. rewrite zero_map_lookup in Hup.
  set (total := default 0%nat
                  (drive_totals_of cfg (candidates_of_run cfg fs) !! dn)) in *.
  set (up := default 0%nat
               (drive_uploaded (run_loop_state cfg fs env dry_run disk) !! dn))
    in *.
  assert (Hle : (up <= total)%nat) by lia.
  destruct total as [|t].
  - assert (up = 0)%nat as -> by lia. split; by vm_compute.
  - apply percent_bounded; lia.
Qed.

Lemma drive_percent_is_bounded_witness :
  (0 <= inject_Z (Z.of_nat 1) / inject_Z (Z.of_nat 2) * 100)%Q
  /\ (inject_Z (Z.of_nat 1) / inject_Z (Z.of_nat 2) * 100 <= 100)%Q.
Proof.
  apply (drive_percent_is_bounded Sample.cfg Sample.fs_two_copies
           Sample.quiet false NoFile "MAIN").
  assert (H : rep_drive_report_lines
                (run_report (backup_run Sample.cfg Sample.fs_two_copies
                               Sample.quiet false NoFile))
              = [DriveOnline "MAIN"
                   (inject_Z (Z.of_nat 1) / inject_Z (Z.of_nat 2) * 100)%Q])
    by (vm_compute; reflexivity).
  rewrite H. apply list_elem_of_here.
Defined.

(** * Deduplication, ledger and progress *)

Section More.
Context (cfg : Config) (fs : FS) (env : Env).
Context (dry_run : bool) (persisted : gmap string string).
Context (start_time : Q) (total_files : nat).
Local Arguments process_file : simpl never.

Local Abbreviation step := (process_file cfg fs env dry_run persisted
                          start_time total_files).

Ltac cases_of idx p d st :=
  destruct (process_file_case cfg fs env dry_run persisted start_time
              total_files idx p d st); simpl in *.

Lemma dedup_sound_upload (st : LoopState) (e : UploadEntry) (k : string) :
  dedup_sound st ->
  content_hash_to_s3key st !! ue_hash e = None ->
  ue_s3_key e = mask_s3_key k ->
  (forall h, <[ue_hash e := k]> (content_hash_to_s3key st) !! h = None ->
     uploads_of_hash h (man_uploaded st ++ [e]) = [])
  /\ (forall h, (length (uploads_of_hash h (man_uploaded st ++ [e])) <= 1)%nat)
  /\ (forall h k', <[ue_hash e := k]> (content_hash_to_s3key st) !! h = Some k' ->
        mask_s3_key k' ∈ ue_s3_key <$> (man_uploaded st ++ [e]))
  /\ (forall d, d ∈ man_skipped_duplicates st ->
        d.2 ∈ ue_s3_key <$> (man_uploaded st ++ [e])).
Proof.
  intros (Hnone & Hone & Hkey & Hdup) Hfresh Hk. repeat split.
  - intros h Hh. rewrite lookup_insert in Hh. case_decide; [done|].
    rewrite uploads_of_hash_snoc_ne by done. by apply Hnone.
  - intros h. destruct (decide (ue_hash e = h)) as [<-|Hne].
    + rewrite uploads_of_hash_snoc_eq, Hnone by done. simpl. lia.
    + rewrite uploads_of_hash_snoc_ne by done. apply Hone.
  - intros h k' Hh. rewrite fmap_app. apply elem_of_app.
    rewrite lookup_insert in Hh. case_decide.
    + simplify_eq. right. simpl. rewrite Hk. apply list_elem_of_here.
    + left. by eapply Hkey.
  - intros d Hd. rewrite fmap_app. apply elem_of_app. left. by apply Hdup.
Qed.

Lemma step_dedup_sound idx p d st :
  dedup_sound st -> dedup_sound (step idx (p, d) st).
Proof.
  intros Hs. pose proof Hs as (Hnone & Hone & Hkey & Hdup).
  cases_of idx p d st; try done.
  - (* duplicate *)
    repeat split; try done. intros x Hx.
    apply elem_of_app in Hx as [Hx|Hx]; [by apply Hdup|].
    apply list_elem_of_singleton in Hx as ->. simpl. by eapply Hkey.
  - by apply (dedup_sound_upload st
                {| ue_path := mask_path_for_output fs p;
                   ue_s3_key := mask_s3_key (s3_key_of cfg fs env idx p d);
                   ue_size_bytes := default 0%Z (fs_getsize fs p);
                   ue_hash := file_hash;
                   ue_action := DryUpload |}).
  - by apply (dedup_sound_upload st
                {| ue_path := mask_path_for_output fs p;
                   ue_s3_key := mask_s3_key (s3_key_of cfg fs env idx p d);
                   ue_size_bytes := default 0%Z (fs_getsize fs p);
                   ue_hash := file_hash;
                   ue_action := UploadedAction |}).
Qed.

Lemma step_samples_in_range idx p d st :
  samples_in_range st -> samples_in_range (step idx (p, d) st).
Proof.
  unfold samples_in_range. intros Hs.
  assert (Hmono : Forall (fun s => (1 <= ps_processed_files s
                                    <= S (processed_files st))%nat)
                    (man_progress_samples st)).
  { eapply Forall_impl; [exact Hs|]. simpl. intros; lia. }
  cases_of idx p d st;
    first [ exact Hs
          | exact Hmono
          | apply Forall_app; split;
            [exact Hmono | apply Forall_singleton; simpl; lia] ].
Qed.

End More.

Lemma initial_state_more persisted labels :
  dedup_sound (initial_state persisted labels)
  /\ samples_in_range (initial_state persisted labels).
Proof.
  split.
  - unfold dedup_sound. simpl.
    split; [done|]. split; [intros h; simpl; lia|].
    split; [intros h k Hk; by rewrite lookup_empty in Hk|].
    intros d Hd. by apply elem_of_nil in Hd.
  - unfold samples_in_range. simpl. constructor.
Qed.

(** X17.  Within one run no content hash has more than one recorded
    upload, whatever fails and whenever the run is interrupted. *)
Theorem content_uploaded_at_most_once cfg fs env dry_run disk h :
  (length (uploads_of_hash h
             (rm_uploaded (run_manifest (backup_run cfg fs env dry_run disk))))
   <= 1)%nat.
Proof.
  destruct (backup_run_fields cfg fs env dry_run disk) as (_ & -> & _).
  destruct (initial_state_more (load_hash_db disk) (drive_labels cfg))
    as [Hd _].
  pose proof (loop_invariant cfg fs env dry_run (load_hash_db disk)
                (env_time_start env) (length (candidates_of_run cfg fs))
                dedup_sound
                (step_dedup_sound cfg fs env dry_run (load_hash_db disk)
                   (env_time_start env) (length (candidates_of_run cfg fs)))
                (candidates_of_run cfg fs) 1 _ Hd) as (_ & Hone & _).
  apply Hone.
Qed.

(** X18.  The key a duplicate skip names is always the key of an
    upload recorded in the same run. *)
Theorem duplicate_skips_point_at_uploads cfg fs env dry_run disk d :
  d ∈ rm_skipped_duplicates (run_manifest (backup_run cfg fs env dry_run disk)) ->
  d.2 ∈ ue_s3_key
          <$> rm_uploaded (run_manifest (backup_run cfg fs env dry_run disk)).
Proof.
  destruct (backup_run_fields cfg fs env dry_run disk) as (_ & -> & -> & _).
  destruct (initial_state_more (load_hash_db disk) (drive_labels cfg))
    as [Hd _].
  pose proof (loop_invariant cfg fs env dry_run (load_hash_db disk)
                (env_time_start env) (length (candidates_of_run cfg fs))
                dedup_sound
                (step_dedup_sound cfg fs env dry_run (load_hash_db disk)
                   (env_time_start env) (length (candidates_of_run cfg fs)))
                (candidates_of_run cfg fs) 1 _ Hd) as (_ & _ & _ & Hdup).
  apply Hdup.
Qed.

(** X19.  After a run that is never interrupted and records no failed
    file, the ledger holds the current hash of every candidate path,
    in a dry run as in a real one. *)
Theorem clean_run_ledger_is_current cfg fs env dry_run disk :
  never_interrupted env ->
  file_errors (rm_errors (run_manifest (backup_run cfg fs env dry_run disk)))
    = [] ->
  ledger_current fs (run_updated_hashes (backup_run cfg fs env dry_run disk))
    (candidates_of_run cfg fs).
Proof.
  intros Hi Hclean.
  destruct (backup_run_fields cfg fs env dry_run disk)
    as (-> & _ & _ & _ & _ & _ & Hfe & _).
  rewrite Hfe in Hclean.
  destruct (initial_state_invariants cfg fs dry_run (load_hash_db disk)
              (drive_labels cfg)) as (Hacc & _).
  pose proof (loop_invariant cfg fs env dry_run (load_hash_db disk)
                (env_time_start env) (length (candidates_of_run cfg fs))
                accounted
                (step_accounted cfg fs env dry_run (load_hash_db disk)
                   (env_time_start env) (length (candidates_of_run cfg fs)))
                (candidates_of_run cfg fs) 1 _ Hacc) as (_ & _ & Hall).
  fold (run_loop_state cfg fs env dry_run disk) in Hall.
  rewrite Hall in Hclean. unfold run_loop_state in *.
  destruct (loop_ledger_tracks cfg fs env dry_run (load_hash_db disk)
              (env_time_start env) (length (candidates_of_run cfg fs))
              (candidates_of_run cfg fs) 1
              (initial_state (load_hash_db disk) (drive_labels cfg))
              Hi Hclean) as [[Hseen _] Hcands].
  { split; intros p Hp; simpl in *; [set_solver | done]. }
  intros c Hc. apply Hseen, Hcands, Hc.
Qed.

(** X20.  Every progress sample reports a number of processed files
    between 1 and the total number of candidates. *)
Theorem progress_samples_in_range cfg fs env dry_run disk s :
  s ∈ rm_progress_samples (run_manifest (backup_run cfg fs env dry_run disk)) ->
  (1 <= ps_processed_files s
   <= rm_total_files (run_manifest (backup_run cfg fs env dry_run disk)))%nat.
Proof.
  destruct (backup_run_fields cfg fs env dry_run disk)
    as (_ & _ & _ & _ & -> & _).
  assert (Htot : rm_total_files (run_manifest (backup_run cfg fs env dry_run disk))
                 = length (candidates_of_run cfg fs)).
  { unfold backup_run, save_hash_db_atomic, bucket_estimate.
    destruct dry_run, (env_save_error env), (env_listing env); reflexivity. }
  rewrite Htot.
  destruct (initial_state_more (load_hash_db disk) (drive_labels cfg))
    as [_ Hs].
  pose proof (loop_invariant cfg fs env dry_run (load_hash_db disk)
                (env_time_start env) (length (candidates_of_run cfg fs))
                samples_in_range
                (step_samples_in_range cfg fs env dry_run (load_hash_db disk)
                   (env_time_start env) (length (candidates_of_run cfg fs)))
                (candidates_of_run cfg fs) 1 _ Hs) as Hall.
  fold (run_loop_state cfg fs env dry_run disk) in Hall.
  unfold samples_in_range in Hall. rewrite Forall_forall in Hall.
  intros Hin. specialize (Hall s Hin).
  pose proof (loop_processed_le cfg fs env dry_run (load_hash_db disk)
                (env_time_start env) (length (candidates_of_run cfg fs))
                (candidates_of_run cfg fs) 1
                (initial_state (load_hash_db disk) (drive_labels cfg))) as Hle.
  fold (run_loop_state cfg fs env dry_run disk) in Hle.
  simpl in Hle. lia.
Qed.

Lemma duplicate_skips_point_at_uploads_witness :
  ("/Pi....jpg", "2026/01/02/MAIN/Pictures/*****").2
    ∈ ue_s3_key
        <$> rm_uploaded
              (run_manifest (backup_run Sample.cfg Sample.fs_two_copies
                               Sample.quiet false NoFile)).
Proof.
  apply (duplicate_skips_point_at_uploads Sample.cfg Sample.fs_two_copies
           Sample.quiet false NoFile
           ("/Pi....jpg", "2026/01/02/MAIN/Pictures/*****")).
  match goal with
  | |- ?P => apply (bool_decide_unpack P); vm_compute; exact I
  end.
Defined.

Lemma clean_run_ledger_is_current_witness :
  ledger_current Sample.fs_two_copies
    (run_updated_hashes (backup_run Sample.cfg Sample.fs_two_copies
                           Sample.quiet true NoFile))
    (candidates_of_run Sample.cfg Sample.fs_two_copies).
Proof.
  apply (clean_run_ledger_is_current Sample.cfg Sample.fs_two_copies
           Sample.quiet true NoFile).
  - intros idx. reflexivity.
  - vm_compute. reflexivity.
Defined.

Lemma progress_samples_in_range_witness :
  (1 <= ps_processed_files
          (progress_sample Sample.quiet (env_time_start Sample.quiet) 2 1 1)
   <= rm_total_files
        (run_manifest (backup_run Sample.cfg Sample.fs_two_copies
                         Sample.quiet false NoFile)))%nat.
Proof.
  apply (progress_samples_in_range Sample.cfg Sample.fs_two_copies
           Sample.quiet false NoFile).
  assert (H : rm_progress_samples
                (run_manifest (backup_run Sample.cfg Sample.fs_two_copies
                                 Sample.quiet false NoFile))
              = [progress_sample Sample.quiet
                   (env_time_start Sample.quiet) 2 1 1])
    by (vm_compute; reflexivity).
  rewrite H. apply list_elem_of_here.
Defined.
